(** * Audit-chain verifier (kernel/tools/verify_audit_chain.py)

    A shallow embedding of the hash-chain verification tool: the JSON
    values it reads, [normalize], [compute_hash] (with [json.dumps] and
    SHA-256 written out), [verify_signature] and the loop of
    [verify_chain], followed by the properties of the specification.
    The driver [main] is modelled over an explicit world (files, object
    store), with further properties of the verifier and of the driver. *)

From Stdlib Require Import ZArith NArith List String Ascii Bool Lia DecimalString.
From Stdlib Require Import Permutation Sorted.
Import ListNotations.

Local Open Scope Z_scope.

Set Warnings "-register-all".

(** ** SHA-256 (hashlib.sha256), after FIPS 180-4

    Words are 32-bit integers carried in [Z]; additions wrap modulo 2^32. *)

Module Sha256.

Definition wrap (x : Z) : Z := x mod 4294967296.
Definition add32 (x y : Z) : Z := wrap (x + y).
Definition rotr (n x : Z) : Z :=
  Z.lor (Z.shiftr x n) (wrap (Z.shiftl x (32 - n))).
Definition not32 (x : Z) : Z := 4294967295 - x.

Definition ch (x y z : Z) : Z := Z.lxor (Z.land x y) (Z.land (not32 x) z).
Definition maj (x y z : Z) : Z :=
  Z.lxor (Z.lxor (Z.land x y) (Z.land x z)) (Z.land y z).
Definition bsig0 (x : Z) : Z := Z.lxor (Z.lxor (rotr 2 x) (rotr 13 x)) (rotr 22 x).
Definition bsig1 (x : Z) : Z := Z.lxor (Z.lxor (rotr 6 x) (rotr 11 x)) (rotr 25 x).
Definition ssig0 (x : Z) : Z := Z.lxor (Z.lxor (rotr 7 x) (rotr 18 x)) (Z.shiftr x 3).
Definition ssig1 (x : Z) : Z := Z.lxor (Z.lxor (rotr 17 x) (rotr 19 x)) (Z.shiftr x 10).

(** The round constants are the first 32 bits of the fractional parts
    of the cube roots of the first 64 primes, and the initial hash value
    is made of the first 32 bits of the fractional parts of the square
    roots of the first 8 primes (FIPS 180-4, 4.2.2 and 5.3.3). *)
Definition is_prime (n : nat) : bool :=
  forallb (fun d => negb (Nat.eqb (Nat.modulo n d) 0)) (seq 2 (n - 2)).

Definition primes : list Z :=
  map Z.of_nat (filter is_prime (seq 2 310)).

(** The integer cube root of [n], bit by bit from bit [k - 1] down. *)
Fixpoint cube_root (k : nat) (n r : Z) : Z :=
  match k with
  | O => r
  | S k' =>
      let c := r + Z.shiftl 1 (Z.of_nat k') in
      cube_root k' n (if c * c * c <=? n then c else r)
  end.

Definition K : list Z :=
  Eval vm_compute in map (fun p => wrap (cube_root 40 (Z.shiftl p 96) 0)) primes.

Definition H0 : list Z :=
  Eval vm_compute in map (fun p => wrap (Z.sqrt (Z.shiftl p 64))) (firstn 8 primes).

(** Padding: one 0x80 byte, zeros up to 56 modulo 64, then the bit
    length as a 64-bit big-endian integer. *)
Fixpoint be_bytes (n : nat) (x : Z) : list Z :=
  match n with
  | O => []
  | S n' => be_bytes n' (Z.shiftr x 8) ++ [Z.land x 255]
  end.

Definition pad (msg : list Z) : list Z :=
  let len := Z.of_nat (List.length msg) in
  let zeros := Z.to_nat ((55 - len) mod 64) in
  msg ++ [128] ++ repeat 0 zeros ++ be_bytes 8 (8 * len).

Fixpoint words_of_bytes (bs : list Z) : list Z :=
  match bs with
  | a :: b :: c :: d :: rest =>
      (Z.shiftl a 24 + Z.shiftl b 16 + Z.shiftl c 8 + d) :: words_of_bytes rest
  | _ => []
  end.

Fixpoint blocks (n : nat) (ws : list Z) : list (list Z) :=
  match n with
  | O => []
  | S n' =>
      match ws with
      | [] => []
      | _ => firstn 16 ws :: blocks n' (skipn 16 ws)
      end
  end.

(** Message schedule: the window holds the last sixteen words,
    oldest first; each step appends W_t and drops W_(t-16). *)
Definition next_w (win : list Z) : Z :=
  add32 (add32 (ssig1 (nth 14 win 0)) (nth 9 win 0))
        (add32 (ssig0 (nth 1 win 0)) (nth 0 win 0)).

Fixpoint extend (n : nat) (win : list Z) : list Z :=
  match n with
  | O => []
  | S n' => let w := next_w win in w :: extend n' (tl win ++ [w])
  end.

Definition schedule (block : list Z) : list Z := block ++ extend 48 block.

Record regs := Regs { ra : Z; rb : Z; rc : Z; rd : Z; re : Z; rf : Z; rg : Z; rh : Z }.

Definition round (r : regs) (kw : Z * Z) : regs :=
  let t1 := add32 (add32 (add32 (add32 (rh r) (bsig1 (re r)))
                                (ch (re r) (rf r) (rg r))) (fst kw)) (snd kw) in
  let t2 := add32 (bsig0 (ra r)) (maj (ra r) (rb r) (rc r)) in
  Regs (add32 t1 t2) (ra r) (rb r) (rc r) (add32 (rd r) t1) (re r) (rf r) (rg r).

Definition regs_of (h : list Z) : regs :=
  Regs (nth 0 h 0) (nth 1 h 0) (nth 2 h 0) (nth 3 h 0)
       (nth 4 h 0) (nth 5 h 0) (nth 6 h 0) (nth 7 h 0).

Definition list_of (r : regs) : list Z :=
  [ra r; rb r; rc r; rd r; re r; rf r; rg r; rh r].

Definition compress (h : list Z) (block : list Z) : list Z :=
  let r := fold_left round (combine K (schedule block)) (regs_of h) in
  map (fun p => add32 (fst p) (snd p)) (combine h (list_of r)).

Definition digest_words (msg : list Z) : list Z :=
  let ws := words_of_bytes (pad msg) in
  fold_left compress (blocks (List.length ws) ws) H0.

(** hexdigest(): eight hexadecimal digits per word, lowercase. *)
Definition hex_digit (d : Z) : ascii :=
  if d <? 10 then ascii_of_nat (Z.to_nat (48 + d))
  else ascii_of_nat (Z.to_nat (87 + d)).

Fixpoint hex_of (n : nat) (x : Z) : list ascii :=
  match n with
  | O => []
  | S n' => hex_of n' (Z.shiftr x 4) ++ [hex_digit (Z.land x 15)]
  end.

Definition bytes_of_string (s : string) : list Z :=
  map (fun c => Z.of_nat (nat_of_ascii c)) (list_ascii_of_string s).

Definition hexdigest_bytes (msg : list Z) : string :=
  string_of_list_ascii (flat_map (hex_of 8) (digest_words msg)).

Definition hexdigest (s : string) : string := hexdigest_bytes (bytes_of_string s).

End Sha256.


(** ** Python values

    The events come from [json.load]: the values are [None], booleans,
    integers, floats, strings, lists and dicts with string keys.  A string
    is its sequence of code points.  A dict is the list of its items in
    insertion order; the keys of a dict are pairwise distinct ([wf_value]). *)

Definition pystr := list N.

Definition py (s : string) : pystr :=
  map N_of_ascii (list_ascii_of_string s).

Definition bytes := list Z.

(** Floats are not computed with by the tool; it only formats and compares
    them.  The interpreter's float type is a parameter:
    [float_repr] is the text [json.dumps] writes (float.__repr__, or NaN,
    Infinity, -Infinity), [float_eq] is [==] on two floats, [float_eq_int]
    is [==] between a float and an int, and [float_is_nan] recognizes the
    one NaN object that [json] hands out for the literal NaN. *)
Class PyFloat := {
  float : Type;
  float_repr : float -> string;
  float_eq : float -> float -> bool;
  float_eq_int : float -> Z -> bool;
  float_is_nan : float -> bool
}.

(** The runtime around [verify_signature]: whether the [cryptography]
    package was importable ([HAS_CRYPTO]) and the library calls it makes.
    A call that raises is [None] (or [false] for [verify]). *)
Class Runtime := {
  HAS_CRYPTO : bool;
  public_key : Type;
  load_pem_public_key : bytes -> option public_key;
  b64decode : pystr -> option bytes;
  fromhex : pystr -> option bytes;
  public_key_verify : public_key -> bytes -> bytes -> bool
}.

Section Values.

Context {PF : PyFloat}.

Unset Elimination Schemes.

Inductive value : Type :=
| VNone
| VBool (b : bool)
| VInt (n : Z)
| VFloat (f : float)
| VStr (s : pystr)
| VList (l : list value)
| VDict (d : list (pystr * value)).

Set Elimination Schemes.

Definition dict := list (pystr * value).

(** *** Strings *)

Definition pystr_eqb (a b : pystr) : bool :=
  match list_compare N.compare a b with Eq => true | _ => false end.

(** [a <= b] on strings: lexicographic on code points. *)
Definition pystr_leb (a b : pystr) : bool :=
  match list_compare N.compare a b with Gt => false | _ => true end.

(** *** Dicts *)

(** [d[k]]; [None] stands for KeyError. *)
Fixpoint dict_item {A} (d : list (pystr * A)) (k : pystr) : option A :=
  match d with
  | [] => None
  | (k', v) :: d' => if pystr_eqb k k' then Some v else dict_item d' k
  end.

(** [d.get(k)] *)
Definition dict_get (d : dict) (k : pystr) : value :=
  match dict_item d k with Some v => v | None => VNone end.

(** [d[k] = v]: an existing key keeps its place. *)
Fixpoint dict_set {A} (d : list (pystr * A)) (k : pystr) (v : A) : list (pystr * A) :=
  match d with
  | [] => [(k, v)]
  | (k', v') :: d' =>
      if pystr_eqb k k' then (k', v) :: d' else (k', v') :: dict_set d' k v
  end.

(** [{k: v for k, v in items}] and a dict display [{k1: v1, ...}]. *)
Definition dict_of_items {A} (items : list (pystr * A)) : list (pystr * A) :=
  fold_left (fun d kv => dict_set d (fst kv) (snd kv)) items [].

(** [sorted(d.items())]: the items are (key, value) tuples and the keys
    of a dict are distinct, so the order is decided by the keys alone.
    The sort is stable. *)
Fixpoint insert_item {A} (kv : pystr * A) (l : list (pystr * A)) : list (pystr * A) :=
  match l with
  | [] => [kv]
  | kv' :: l' =>
      if pystr_leb (fst kv) (fst kv') then kv :: l else kv' :: insert_item kv l'
  end.

Definition sorted_items {A} (items : list (pystr * A)) : list (pystr * A) :=
  fold_right insert_item [] items.

Definition map_values {A B} (f : A -> B) (items : list (pystr * A)) : list (pystr * B) :=
  map (fun kv => (fst kv, f (snd kv))) items.

(** *** normalize

    The dict branch of the source sorts the items and then normalizes
    each value; here the values are normalized first (the recursion is
    then structural) and the result sorted.  [normalize_dict] below
    shows that the two agree. *)
Fixpoint normalize (obj : value) : value :=
  match obj with
  | VList l => VList (map normalize l)
  | VDict d => VDict (dict_of_items (sorted_items (map_values normalize d)))
  | _ => obj
  end.

(** *** json.dumps(data, sort_keys=True, separators=(',', ':')) *)

Definition dquote : string := String (ascii_of_nat 34) EmptyString.

Definition hex4 (n : Z) : string :=
  string_of_list_ascii (Sha256.hex_of 4 n).

(** One character of a string literal (ensure_ascii is on). *)
Definition escape_char (c : N) : string :=
  let n := Z.of_N c in
  if Z.eqb n 34 then ("\" ++ dquote)%string
  else if Z.eqb n 92 then "\\"%string
  else if Z.eqb n 8 then "\b"%string
  else if Z.eqb n 12 then "\f"%string
  else if Z.eqb n 10 then "\n"%string
  else if Z.eqb n 13 then "\r"%string
  else if Z.eqb n 9 then "\t"%string
  else if Z.leb 32 n && Z.leb n 126 then String (ascii_of_N c) EmptyString
  else if Z.ltb n 65536 then ("\u" ++ hex4 n)%string
  else
    let m := n - 65536 in
    let s1 := Z.lor 55296 (Z.land (Z.shiftr m 10) 1023) in
    let s2 := Z.lor 56320 (Z.land m 1023) in
    ("\u" ++ hex4 s1 ++ "\u" ++ hex4 s2)%string.

Definition encode_basestring_ascii (s : pystr) : string :=
  (dquote ++ String.concat EmptyString (map escape_char s) ++ dquote)%string.

Definition int_repr (n : Z) : string :=
  DecimalString.NilZero.string_of_int (Z.to_int n).

Fixpoint dumps (o : value) : string :=
  match o with
  | VNone => "null"
  | VBool true => "true"
  | VBool false => "false"
  | VInt n => int_repr n
  | VFloat f => float_repr f
  | VStr s => encode_basestring_ascii s
  | VList l => "[" ++ String.concat "," (map dumps l) ++ "]"
  | VDict d =>
      "{" ++ String.concat ","
               (map (fun kv => encode_basestring_ascii (fst kv) ++ ":" ++ snd kv)
                    (sorted_items (map_values dumps d)))
          ++ "}"
  end%string.

(** *** compute_hash

    The text written by [dumps] is ASCII, so its UTF-8 encoding is the
    text itself, byte for byte. *)
Definition canonical_json (event_type payload prev_hash ts : value) : string :=
  let data := dict_of_items
                [ (py "eventType", event_type);
                  (py "payload", normalize payload);
                  (py "prevHash", prev_hash);
                  (py "ts", ts) ] in
  dumps (VDict data).

Definition compute_hash (event_type payload prev_hash ts : value) : string :=
  Sha256.hexdigest (canonical_json event_type payload prev_hash ts).


(** *** Equality and truth value

    [==] on two values.  Booleans, ints and floats compare as numbers;
    a list or dict compares its elements with "identical or equal", and
    the only values for which that differs from [==] are the NaN floats
    ([inner] is set below the top level). *)
Definition int_of_bool (b : bool) : Z := if b then 1 else 0.

Fixpoint py_eq_at (inner : bool) (a b : value) {struct a} : bool :=
  match a, b with
  | VNone, VNone => true
  | VBool x, VBool y => Bool.eqb x y
  | VBool x, VInt y => Z.eqb (int_of_bool x) y
  | VBool x, VFloat g => float_eq_int g (int_of_bool x)
  | VInt x, VBool y => Z.eqb x (int_of_bool y)
  | VInt x, VInt y => Z.eqb x y
  | VInt x, VFloat g => float_eq_int g x
  | VFloat f, VBool y => float_eq_int f (int_of_bool y)
  | VFloat f, VInt y => float_eq_int f y
  | VFloat f, VFloat g => (inner && float_is_nan f && float_is_nan g) || float_eq f g
  | VStr s, VStr t => pystr_eqb s t
  | VList l, VList m =>
      (fix all2 (l m : list value) {struct l} : bool :=
         match l, m with
         | [], [] => true
         | x :: l', y :: m' => py_eq_at true x y && all2 l' m'
         | _, _ => false
         end) l m
  | VDict d, VDict e =>
      Nat.eqb (List.length d) (List.length e)
      && forallb (fun kv =>
                    match dict_item e (fst kv) with
                    | Some w => py_eq_at true (snd kv) w
                    | None => false
                    end) d
  | _, _ => false
  end.

Definition py_eq (a b : value) : bool := py_eq_at false a b.
Definition py_ne (a b : value) : bool := negb (py_eq a b).

(** [bool(v)], as [if v] and [and] test it. *)
Definition truthy (v : value) : bool :=
  match v with
  | VNone => false
  | VBool b => b
  | VInt n => negb (Z.eqb n 0)
  | VFloat f => negb (float_eq_int f 0)
  | VStr s => match s with [] => false | _ => true end
  | VList l => match l with [] => false | _ => true end
  | VDict d => match d with [] => false | _ => true end
  end.

(** *** str.encode('utf-8'); [None] stands for UnicodeEncodeError. *)
Definition utf8_char (c : N) : option bytes :=
  let n := Z.of_N c in
  if n <? 128 then Some [n]
  else if n <? 2048 then
    Some [Z.lor 192 (Z.shiftr n 6); Z.lor 128 (Z.land n 63)]
  else if n <? 65536 then
    if (55296 <=? n) && (n <=? 57343) then None
    else Some [Z.lor 224 (Z.shiftr n 12);
               Z.lor 128 (Z.land (Z.shiftr n 6) 63);
               Z.lor 128 (Z.land n 63)]
  else if n <? 1114112 then
    Some [Z.lor 240 (Z.shiftr n 18);
          Z.lor 128 (Z.land (Z.shiftr n 12) 63);
          Z.lor 128 (Z.land (Z.shiftr n 6) 63);
          Z.lor 128 (Z.land n 63)]
  else None.

Fixpoint utf8_encode (s : pystr) : option bytes :=
  match s with
  | [] => Some []
  | c :: s' =>
      match utf8_char c, utf8_encode s' with
      | Some b, Some bs => Some (b ++ bs)
      | _, _ => None
      end
  end.

(** *** Printed lines

    The tool reports by printing.  A line keeps the values that its
    f-string interpolates; the FAIL lines are the findings. *)
Inductive line : Type :=
| NoEvents                      (* No events to verify. *)
| Verifying (id : value)        (* Verifying event {id}... *)
| FailHash (id : value)         (* FAIL: Hash mismatch for event {id} *)
| Calculated (h : string)       (*   Calculated: {calc_hash} *)
| Stored (h : value)            (*   Stored:     {event['hash']} *)
| FailChain (id : value)        (* FAIL: Chain broken at event {id} *)
| ExpectedPrev (h : value)      (*   Expected prevHash: {previous_hash} *)
| ActualPrev (h : value)        (*   Actual prevHash:   {event.get('prevHash')} *)
| SigFailed                     (* Signature verification failed: {e} *)
| FailSignature (id : value).   (* FAIL: Signature invalid for event {id} *)

Definition is_hash_mismatch (l : line) : bool :=
  match l with FailHash _ => true | _ => false end.
Definition is_chain_break (l : line) : bool :=
  match l with FailChain _ => true | _ => false end.
Definition is_signature_invalid (l : line) : bool :=
  match l with FailSignature _ => true | _ => false end.
Definition is_finding (l : line) : bool :=
  is_hash_mismatch l || is_chain_break l || is_signature_invalid l.

Definition is_sig_failed (l : line) : bool :=
  match l with SigFailed => true | _ => false end.
Definition is_verifying (l : line) : bool :=
  match l with Verifying _ => true | _ => false end.

Definition findings (out : list line) : list line := filter is_finding out.

(** *** verify_signature *)

Context {RT : Runtime}.

Definition option_bind {A B} (o : option A) (f : A -> option B) : option B :=
  match o with Some a => f a | None => None end.

Local Notation "x <-? o ; k" := (option_bind o (fun x => k))
  (at level 61, o at next level, right associativity).

(** A library call on a string argument; any other value raises. *)
Definition on_str {A} (f : pystr -> option A) (v : value) : option A :=
  match v with VStr s => f s | _ => None end.

(** [base64.b64decode], and [bytes.fromhex] when that raises. *)
Definition decode_signature (signature_hex : value) : option bytes :=
  match on_str b64decode signature_hex with
  | Some sg => Some sg
  | None => on_str fromhex signature_hex
  end.

(** The body of the [try]; [None] when any step raises. *)
Definition try_verify (public_key_pem : pystr) (signature_hex data_hash : value)
  : option unit :=
  pem <-? utf8_encode public_key_pem ;
  key <-? load_pem_public_key pem ;
  signature <-? decode_signature signature_hex ;
  data <-? on_str utf8_encode data_hash ;
  if public_key_verify key signature data then Some tt else None.

Definition verify_signature (public_key_pem : pystr) (signature_hex data_hash : value)
  : list line * bool :=
  if negb HAS_CRYPTO then ([], true)
  else
    match try_verify public_key_pem signature_hex data_hash with
    | Some _ => ([], true)
    | None => ([SigFailed], false)
    end.

(** *** verify_chain

    A computation prints lines and either returns or raises. *)
Inductive exn : Type := KeyError (k : pystr).

Definition M (A : Type) : Type := (list line * (exn + A))%type.

Definition ret {A} (a : A) : M A := ([], inr a).

Definition bind {A B} (m : M A) (f : A -> M B) : M B :=
  match m with
  | (out, inl e) => (out, inl e)
  | (out, inr a) => let (out', r) := f a in (out ++ out', r)
  end.

Local Notation "x <- m ;; k" := (bind m (fun x => k))
  (at level 61, m at next level, right associativity).
Local Notation "m ;; k" := (bind m (fun _ => k))
  (at level 61, right associativity).

Definition print (l : line) : M unit := ([l], inr tt).

Definition raise {A} (e : exn) : M A := ([], inl e).

(** [event[k]] *)
Definition item (event : dict) (k : string) : M value :=
  match dict_item event (py k) with
  | Some v => ret v
  | None => raise (KeyError (py k))
  end.

(** [event.get(k)] *)
Definition get (event : dict) (k : string) : value := dict_get event (py k).

Definition printed {A} (r : list line * A) : M A := (fst r, inr (snd r)).

(** [if public_key_pem]: the key is [None] or a string. *)
Definition pem_truthy (public_key_pem : option pystr) : bool :=
  match public_key_pem with
  | Some (_ :: _) => true
  | _ => false
  end.

Definition pem_text (public_key_pem : option pystr) : pystr :=
  match public_key_pem with Some s => s | None => [] end.

(** The body of the [for] loop, from the values of [valid] and
    [previous_hash] before the event to their values after it. *)
Definition check_event (public_key_pem : option pystr) (i : nat) (event : dict)
           (valid : bool) (previous_hash : value) : M (bool * value) :=
  print (Verifying (get event "id")) ;;
  (* 1. Verify Hash *)
  event_type <- item event "eventType" ;;
  payload <- item event "payload" ;;
  ts <- item event "ts" ;;
  let calc_hash := compute_hash event_type payload (get event "prevHash") ts in
  stored <- item event "hash" ;;
  valid <- (if py_ne (VStr (py calc_hash)) stored then
              print (FailHash (get event "id")) ;;
              print (Calculated calc_hash) ;;
              stored' <- item event "hash" ;;
              print (Stored stored') ;;
              ret false
            else ret valid) ;;
  (* 2. Verify prevHash linking *)
  valid <- (if Nat.ltb 0 i then
              if py_ne (get event "prevHash") previous_hash then
                print (FailChain (get event "id")) ;;
                print (ExpectedPrev previous_hash) ;;
                print (ActualPrev (get event "prevHash")) ;;
                ret false
              else ret valid
            else ret valid) ;;
  previous_hash <- item event "hash" ;;
  (* 3. Verify Signature *)
  valid <- (if pem_truthy public_key_pem && truthy (get event "signature") then
              signature <- item event "signature" ;;
              data_hash <- item event "hash" ;;
              ok <- printed (verify_signature (pem_text public_key_pem)
                                              signature data_hash) ;;
              if negb ok then
                print (FailSignature (get event "id")) ;;
                ret false
              else ret valid
            else ret valid) ;;
  ret (valid, previous_hash).

Fixpoint loop (public_key_pem : option pystr) (i : nat) (events : list dict)
         (valid : bool) (previous_hash : value) : M bool :=
  match events with
  | [] => ret valid
  | event :: rest =>
      st <- check_event public_key_pem i event valid previous_hash ;;
      loop public_key_pem (S i) rest (fst st) (snd st)
  end.

Definition verify_chain (events : list dict) (public_key_pem : option pystr) : M bool :=
  match events with
  | [] => print NoEvents ;; ret true
  | _ => loop public_key_pem 0 events true VNone
  end.


(** ** Notions used to state the properties *)

(** The fields read with [event[...]], in the order the loop reads them. *)
Definition required_fields : list string :=
  ["eventType"; "payload"; "ts"; "hash"]%string.

Definition has_field (event : dict) (k : string) : bool :=
  match dict_item event (py k) with Some _ => true | None => false end.

Definition has_required (event : dict) : bool :=
  forallb (has_field event) required_fields.

Definition first_missing (event : dict) : option string :=
  find (fun k => negb (has_field event k)) required_fields.

Definition all_required (events : list dict) : Prop :=
  Forall (fun e => has_required e = true) events.

(** The digest recomputed for an event, and the three checks. *)
Definition digest (event : dict) : string :=
  compute_hash (get event "eventType") (get event "payload")
               (get event "prevHash") (get event "ts").

Definition hash_fails (event : dict) : bool :=
  py_ne (VStr (py (digest event))) (get event "hash").

Definition link_fails (i : nat) (event : dict) (expected_prev : value) : bool :=
  Nat.ltb 0 i && py_ne (get event "prevHash") expected_prev.

Definition signature_checked (public_key_pem : option pystr) (event : dict) : bool :=
  pem_truthy public_key_pem && truthy (get event "signature").

Definition signature_fails (public_key_pem : option pystr) (event : dict) : bool :=
  signature_checked public_key_pem event
  && negb (snd (verify_signature (pem_text public_key_pem)
                                 (get event "signature") (get event "hash"))).

Definition event_passes (public_key_pem : option pystr) (i : nat) (event : dict)
           (expected_prev : value) : bool :=
  negb (hash_fails event) && negb (link_fails i event expected_prev)
  && negb (signature_fails public_key_pem event).

(** The lines expected for one event that has its required fields. *)
Definition hash_report (event : dict) : list line :=
  if hash_fails event then
    [FailHash (get event "id"); Calculated (digest event); Stored (get event "hash")]
  else [].

Definition link_report (i : nat) (event : dict) (expected_prev : value) : list line :=
  if link_fails i event expected_prev then
    [FailChain (get event "id"); ExpectedPrev expected_prev;
     ActualPrev (get event "prevHash")]
  else [].

Definition signature_report (public_key_pem : option pystr) (event : dict) : list line :=
  if signature_checked public_key_pem event then
    let r := verify_signature (pem_text public_key_pem)
                              (get event "signature") (get event "hash") in
    fst r ++ (if snd r then [] else [FailSignature (get event "id")])
  else [].

Definition event_report (public_key_pem : option pystr) (i : nat) (event : dict)
           (expected_prev : value) : list line :=
  Verifying (get event "id")
    :: hash_report event ++ link_report i event expected_prev
    ++ signature_report public_key_pem event.

Fixpoint chain_report (public_key_pem : option pystr) (i : nat) (events : list dict)
         (expected_prev : value) : list line :=
  match events with
  | [] => []
  | event :: rest =>
      event_report public_key_pem i event expected_prev
      ++ chain_report public_key_pem (S i) rest (get event "hash")
  end.

Fixpoint chain_passes (public_key_pem : option pystr) (i : nat) (events : list dict)
         (expected_prev : value) : bool :=
  match events with
  | [] => true
  | event :: rest =>
      event_passes public_key_pem i event expected_prev
      && chain_passes public_key_pem (S i) rest (get event "hash")
  end.

(** The Chain Verifier of the specification: a fold over the events, in
    order, whose state is the expected previous hash and which emits
    typed findings, tagged with the position of the event. *)
Inductive finding : Type :=
| HashMismatch (i : nat)
| ChainBreak (i : nat)
| SignatureInvalid (i : nat).

Definition spec_transition (public_key_pem : option pystr) (i : nat) (event : dict)
           (expected_prev : value) : list finding :=
  (if hash_fails event then [HashMismatch i] else [])
  ++ (if link_fails i event expected_prev then [ChainBreak i] else [])
  ++ (if signature_fails public_key_pem event then [SignatureInvalid i] else []).

Fixpoint spec_verifier (public_key_pem : option pystr) (i : nat) (events : list dict)
         (expected_prev : value) : list finding :=
  match events with
  | [] => []
  | event :: rest =>
      spec_transition public_key_pem i event expected_prev
      ++ spec_verifier public_key_pem (S i) rest (get event "hash")
  end.

(** The FAIL line that reports a finding. *)
Definition finding_line (events : list dict) (f : finding) : line :=
  match f with
  | HashMismatch i => FailHash (get (nth i events []) "id")
  | ChainBreak i => FailChain (get (nth i events []) "id")
  | SignatureInvalid i => FailSignature (get (nth i events []) "id")
  end.

(** The canonical encoding of the specification: the record of the
    four hashed fields in the fixed order eventType, payload, prevHash,
    ts, the payload normalized, without whitespace. *)
Definition spec_field (name : string) (v : value) : string :=
  (dquote ++ name ++ dquote ++ ":" ++ dumps v)%string.

Definition spec_canonical_encoding (event_type payload prev_hash ts : value) : string :=
  ("{" ++ (spec_field "eventType" event_type
           ++ "," ++ spec_field "payload" (normalize payload)
           ++ "," ++ spec_field "prevHash" prev_hash
           ++ "," ++ spec_field "ts" ts)
       ++ "}")%string.

Definition is_lower_hex (c : ascii) : bool :=
  let n := nat_of_ascii c in
  (Nat.leb 48 n && Nat.leb n 57) || (Nat.leb 97 n && Nat.leb n 102).

(** The three invariants of the data model. *)
Definition hash_invariant (event : dict) : Prop :=
  exists event_type payload ts,
    dict_item event (py "eventType") = Some event_type
    /\ dict_item event (py "payload") = Some payload
    /\ dict_item event (py "ts") = Some ts
    /\ dict_item event (py "hash")
       = Some (VStr (py (compute_hash event_type payload (get event "prevHash") ts))).

Fixpoint links_from (prev : value) (events : list dict) : Prop :=
  match events with
  | [] => True
  | event :: rest => get event "prevHash" = prev /\ links_from (get event "hash") rest
  end.

Definition link_invariant (events : list dict) : Prop :=
  match events with
  | [] => True
  | event :: rest => links_from (get event "hash") rest
  end.

(** The link check of the loop passes between consecutive events. *)
Fixpoint links_ok_from (prev : value) (events : list dict) : bool :=
  match events with
  | [] => true
  | event :: rest =>
      py_eq (get event "prevHash") prev && links_ok_from (get event "hash") rest
  end.

Definition links_ok (events : list dict) : bool :=
  match events with
  | [] => true
  | event :: rest => links_ok_from (get event "hash") rest
  end.

Definition signature_validates (public_key_pem : pystr) (signature data_hash : value)
  : Prop :=
  exists pem key sg data,
    utf8_encode public_key_pem = Some pem
    /\ load_pem_public_key pem = Some key
    /\ decode_signature signature = Some sg
    /\ on_str utf8_encode data_hash = Some data
    /\ public_key_verify key sg data = true.

Definition signature_invariant (public_key_pem : option pystr) (event : dict) : Prop :=
  signature_checked public_key_pem event = true ->
  signature_validates (pem_text public_key_pem)
                      (get event "signature") (get event "hash").

(** Keys in ascending order of their code points. *)
Definition keys_sorted (ks : list pystr) : Prop :=
  StronglySorted (fun a b => pystr_leb a b = true) ks.

(** Two values that differ at most in the insertion order of the keys
    of their dicts, at any depth. *)
Inductive same_modulo_key_order : value -> value -> Prop :=
| smko_none : same_modulo_key_order VNone VNone
| smko_bool b : same_modulo_key_order (VBool b) (VBool b)
| smko_int n : same_modulo_key_order (VInt n) (VInt n)
| smko_float f : same_modulo_key_order (VFloat f) (VFloat f)
| smko_str s : same_modulo_key_order (VStr s) (VStr s)
| smko_list l m :
    Forall2 same_modulo_key_order l m ->
    same_modulo_key_order (VList l) (VList m)
| smko_dict d d' e :
    Permutation d d' ->
    Forall2 (fun kv kv' => fst kv = fst kv'
                           /\ same_modulo_key_order (snd kv) (snd kv')) d' e ->
    same_modulo_key_order (VDict d) (VDict e).

(** The keys of every dict are pairwise distinct. *)
Inductive wf_value : value -> Prop :=
| wf_none : wf_value VNone
| wf_bool b : wf_value (VBool b)
| wf_int n : wf_value (VInt n)
| wf_float f : wf_value (VFloat f)
| wf_str s : wf_value (VStr s)
| wf_list l : Forall wf_value l -> wf_value (VList l)
| wf_dict d :
    NoDup (map fst d) -> Forall (fun kv => wf_value (snd kv)) d ->
    wf_value (VDict d).

End Values.

(** ** Concrete instances and sample events

    [no_float] is the instance for documents without floats.
    [toy_runtime] is a stand-in for the cryptography package, enough to
    run the verifier on examples: a key is the bytes of its PEM text, a
    signature is decoded by the hexadecimal fallback as the code points
    of its text, and the signature of some data under a key is the key
    followed by the data. *)

Definition no_float : PyFloat := {|
  float := Empty_set;
  float_repr := fun f => match f with end;
  float_eq := fun f _ => match f with end;
  float_eq_int := fun f _ => match f with end;
  float_is_nan := fun f => match f with end
|}.

Fixpoint bytes_eqb (a b : bytes) : bool :=
  match a, b with
  | [], [] => true
  | x :: a', y :: b' => Z.eqb x y && bytes_eqb a' b'
  | _, _ => false
  end.

Definition toy_runtime (has_crypto : bool) : Runtime := {|
  HAS_CRYPTO := has_crypto;
  public_key := bytes;
  load_pem_public_key := fun pem => match pem with [] => None | _ => Some pem end;
  b64decode := fun _ => None;
  fromhex := fun s => match s with [] => None | _ => Some (map Z.of_N s) end;
  public_key_verify := fun key sg data => bytes_eqb sg (key ++ data)
|}.

Definition ev (items : list (string * @value no_float)) : @dict no_float :=
  map (fun kv => (py (fst kv), snd kv)) items.

Definition str (s : string) : @value no_float := VStr (py s).

Definition sample_key : option pystr := Some (py "k").

Definition h0 : string :=
  "89760cd4e3a8ba0ab786df097bdae01c6263f56e47812e0f9bf99e2f9ffae379".
Definition h1 : string :=
  "18a6bfc7cf68136d392d07a12b7b6c575b3c08c41fdbca45122b813ac0edfa95".
Definition h2 : string :=
  "245ad6bd84cb748bdfc43048d0d6dfa761dc079c2fd6ed61a763eb6417605202".
Definition h3 : string :=
  "9a986dac986970a31cb2c61894d5a6701672a17e2d7b381fd2862d17b9619ade".

(** A genesis event, and its successor, signed under [sample_key]. *)
Definition event0 : @dict no_float :=
  ev [ ("id", str "a"); ("eventType", str "login"); ("payload", VDict []);
       ("prevHash", VNone); ("ts", str "2024-01-01T00:00:00Z");
       ("hash", str h0) ]%string.

Definition event1 : @dict no_float :=
  ev [ ("id", str "b"); ("eventType", str "logout");
       ("payload", VDict (ev [("user", str "bob"); ("n", VInt 1)]%string));
       ("prevHash", str h0); ("ts", str "2024-01-01T00:05:00Z");
       ("hash", str h1); ("signature", str ("k" ++ h1)) ]%string.

(** A correctly hashed event whose prevHash is not the hash of [event1],
    and a successor linked to it. *)
Definition event2 : @dict no_float :=
  ev [ ("id", str "c"); ("eventType", str "login");
       ("payload", VList [VInt 1; VBool true]);
       ("prevHash", str "deadbeef"); ("ts", str "2024-01-01T00:06:00Z");
       ("hash", str h2) ]%string.

Definition event3 : @dict no_float :=
  ev [ ("id", str "d"); ("eventType", str "logout"); ("payload", VNone);
       ("prevHash", str h2); ("ts", str "2024-01-01T00:07:00Z");
       ("hash", str h3) ]%string.

(** An event without ts, and one whose stored hash is wrong. *)
Definition event_no_ts : @dict no_float :=
  ev [ ("id", str "x"); ("eventType", str "login"); ("payload", VDict []);
       ("hash", str h0) ]%string.

Definition event_bad_hash : @dict no_float :=
  ev [ ("id", str "y"); ("eventType", str "login"); ("payload", VDict []);
       ("prevHash", str h0); ("ts", str "2024-01-01T00:09:00Z");
       ("hash", str "00") ]%string.

(** The same payload with its keys inserted in two orders. *)
Definition payload_a : @value no_float :=
  VDict (ev [ ("b", VInt 1);
              ("a", VList [ VDict (ev [("y", VNone); ("x", str "s")]%string);
                            VBool true ]) ]%string).

Definition payload_b : @value no_float :=
  VDict (ev [ ("a", VList [ VDict (ev [("x", str "s"); ("y", VNone)]%string);
                            VBool true ]);
              ("b", VInt 1) ]%string).

(** ** The command-line driver (main)

    [main] reads its events from a file or from an object store, reads an
    optional key file, runs [verify_chain] and exits with a status.  What
    lies outside the program is a parameter: the files, the object store,
    and the interpreter's [list.sort] on keys other than strings. *)

Inductive s3_result {PF : PyFloat} : Type :=
| S3ClientFails                     (* boto3.client('s3') raises *)
| S3FetchFails                      (* listing, reading or json.loads raises *)
| S3Bodies (bodies : list value).   (* the parsed objects, in listing order *)

Class World {PF : PyFloat} := {
  HAS_BOTO3 : bool;
  (* open(path, 'r') then json.load(f); None when either raises *)
  load_json_file : pystr -> option value;
  (* open(path, 'r') then f.read(); None when either raises *)
  read_text_file : pystr -> option pystr;
  (* the objects under a bucket and prefix *)
  s3_objects : pystr -> pystr -> s3_result;
  (* list.sort on (key, item) pairs whose keys are not all strings;
     None when a comparison raises *)
  sort_other : list (value * value) -> option (list (value * value))
}.

(** The command line after argparse: each option is None or a string. *)
Record args : Type := {
  args_file : option pystr;
  args_s3_bucket : option pystr;
  args_s3_prefix : option pystr;
  args_public_key : option pystr
}.

Section Driver.

Context {PF : PyFloat} {RT : Runtime} {W : World}.

(** Exceptions that nothing catches: the interpreter prints a traceback
    and the process ends with status 1. *)
Inductive error : Type :=
| ChainKeyError (k : pystr)   (* event[k] in verify_chain *)
| AttributeError              (* event.get on a value that is not a dict *)
| FileError                   (* opening or parsing a file *)
| S3ClientError.              (* creating the S3 client *)

Inductive outcome : Type :=
| Exit (status : Z)
| Traceback (e : error).

Definition exit_status (o : outcome) : Z :=
  match o with Exit n => n | Traceback _ => 1 end.

Inductive main_line : Type :=
| Chain (l : line)      (* a line printed by verify_chain *)
| ErrorNoBoto3          (* Error: boto3 not installed *)
| ErrorFetching         (* Error fetching from S3: {e} *)
| PleaseProvide         (* Please provide --file or --s3-bucket *)
| Success               (* SUCCESS: Chain verified. *)
| Failure.              (* FAILURE: Chain verification failed. *)

(** [if args.x]: the option was given and is not the empty string. *)
Definition given (o : option pystr) : bool :=
  match o with Some (_ :: _) => true | _ => false end.

Definition text_of (o : option pystr) : pystr :=
  match o with Some s => s | None => [] end.

(** verify_chain on the events as [main] passes them: the elements of
    the list are arbitrary JSON values, and [event.get] raises on one that
    is not a dict. *)
Fixpoint loop_any (public_key_pem : option pystr) (i : nat) (events : list value)
         (valid : bool) (previous_hash : value) : list line * (error + bool) :=
  match events with
  | [] => ([], inr valid)
  | VDict event :: rest =>
      match check_event public_key_pem i event valid previous_hash with
      | (out, inl (KeyError k)) => (out, inl (ChainKeyError k))
      | (out, inr st) =>
          let (out', r) := loop_any public_key_pem (S i) rest (fst st) (snd st) in
          (out ++ out', r)
      end
  | _ :: _ => ([], inl AttributeError)
  end.

Definition verify_chain_any (events : list value) (public_key_pem : option pystr)
  : list line * (error + bool) :=
  match events with
  | [] => ([NoEvents], inr true)
  | _ => loop_any public_key_pem 0 events true VNone
  end.

(** [events = content if isinstance(content, list) else [content]] *)
Definition events_of_content (content : value) : list value :=
  match content with
  | VList l => l
  | _ => [content]
  end.

(** [events.sort(key=lambda x: x['ts'])].  The key function is applied
    to every element first; it raises on an element that is not a dict or
    has no ts.  With fewer than two elements nothing is compared.  String
    keys are compared by code points and the sort is stable. *)
Fixpoint all_some {A B} (f : A -> option B) (l : list A) : option (list B) :=
  match l with
  | [] => Some []
  | x :: l' =>
      match f x, all_some f l' with
      | Some y, Some ys => Some (y :: ys)
      | _, _ => None
      end
  end.

Definition ts_key (x : value) : option (value * value) :=
  match x with
  | VDict d => match dict_item d (py "ts") with Some k => Some (k, x) | None => None end
  | _ => None
  end.

Definition str_key (kv : value * value) : option (pystr * value) :=
  match fst kv with VStr s => Some (s, snd kv) | _ => None end.

Definition sort_by_ts (events : list value) : option (list value) :=
  match all_some ts_key events with
  | None => None
  | Some kvs =>
      match kvs with
      | [] | [_] => Some events
      | _ =>
          match all_some str_key kvs with
          | Some skvs => Some (map snd (sorted_items skvs))
          | None => option_map (map snd) (sort_other kvs)
          end
      end
  end.

(** The events [main] hands to verify_chain, or how it ends before. *)
Definition load_events (a : args) : list main_line * (outcome + list value) :=
  if given (args_file a) then
    match load_json_file (text_of (args_file a)) with
    | None => ([], inl (Traceback FileError))
    | Some content => ([], inr (events_of_content content))
    end
  else if given (args_s3_bucket a) then
    if negb HAS_BOTO3 then ([ErrorNoBoto3], inl (Exit 1))
    else
      match s3_objects (text_of (args_s3_bucket a))
                       (if given (args_s3_prefix a) then text_of (args_s3_prefix a) else [])
      with
      | S3ClientFails => ([], inl (Traceback S3ClientError))
      | S3FetchFails => ([ErrorFetching], inl (Exit 1))
      | S3Bodies bodies =>
          match sort_by_ts bodies with
          | None => ([ErrorFetching], inl (Exit 1))
          | Some events => ([], inr events)
          end
      end
  else ([PleaseProvide], inl (Exit 1)).

(** The public key: None, or the text of the key file. *)
Definition load_key (a : args) : outcome + option pystr :=
  if given (args_public_key a) then
    match read_text_file (text_of (args_public_key a)) with
    | None => inl (Traceback FileError)
    | Some pem => inr (Some pem)
    end
  else inr None.

Definition main (a : args) : list main_line * outcome :=
  match load_events a with
  | (out, inl o) => (out, o)
  | (out, inr events) =>
      match load_key a with
      | inl o => (out, o)
      | inr public_key_pem =>
          match verify_chain_any events public_key_pem with
          | (lines, inl e) => (out ++ map Chain lines, Traceback e)
          | (lines, inr true) => (out ++ map Chain lines ++ [Success], Exit 0)
          | (lines, inr false) => (out ++ map Chain lines ++ [Failure], Exit 1)
          end
      end
  end.

(** The timestamp of an event when it is a string, alone and paired
    with the event. *)
Definition str_ts (x : value) : option pystr :=
  match ts_key x with
  | Some (VStr s, _) => Some s
  | _ => None
  end.

Definition str_tagged (x : value) : option (pystr * value) :=
  match str_ts x with Some s => Some (s, x) | None => None end.

(** The same command line without --public-key. *)
Definition without_key (a : args) : args :=
  {| args_file := args_file a; args_s3_bucket := args_s3_bucket a;
     args_s3_prefix := args_s3_prefix a; args_public_key := None |}.


End Driver.

(** A world for running [main] on the samples: two files, a key file,
    and three buckets. *)
Definition toy_world : @World no_float := {|
  HAS_BOTO3 := true;
  load_json_file := fun path =>
    if pystr_eqb path (py "chain.json") then Some (VList [VDict event0; VDict event1])
    else if pystr_eqb path (py "mixed.json")
         then Some (VList [VDict event0; VInt 5; VDict event1])
    else None;
  read_text_file := fun path =>
    if pystr_eqb path (py "key.pem") then Some (py "k") else None;
  s3_objects := fun bucket _ =>
    if pystr_eqb bucket (py "newest-first") then S3Bodies [VDict event1; VDict event0]
    else if pystr_eqb bucket (py "oldest-first") then S3Bodies [VDict event0; VDict event1]
    else if pystr_eqb bucket (py "broken") then S3Bodies [VDict event0; VDict event_no_ts]
    else S3FetchFails;
  sort_other := fun _ => None
|}.

Definition file_args (path key : string) : args :=
  {| args_file := Some (py path); args_s3_bucket := None;
     args_s3_prefix := None; args_public_key := Some (py key) |}.

(** An event whose signature is a number, and a world whose key file
    is empty. *)
Definition event_numeric_signature : @dict no_float :=
  ev [ ("id", str "n"); ("eventType", str "login"); ("payload", VDict []);
       ("prevHash", VNone); ("ts", str "2024-01-01T00:00:00Z");
       ("hash", str h0); ("signature", VInt 7) ]%string.

Definition empty_key_world : @World no_float := {|
  HAS_BOTO3 := false;
  load_json_file := fun _ => Some (VList [VDict event0; VDict event1]);
  read_text_file := fun _ => Some [];
  s3_objects := fun _ _ => S3FetchFails;
  sort_other := fun _ => None
|}.

Definition bucket_args (bucket : string) : args :=
  {| args_file := None; args_s3_bucket := Some (py bucket);
     args_s3_prefix := None; args_public_key := None |}.

(** ** Notions used to state further properties *)

Section MoreNotions.

Context {PF : PyFloat}.

(** The fields the loop reads, and those among them that can change the
    verdict (the id is only printed). *)
Definition verdict_fields : list string :=
  ["eventType"; "payload"; "prevHash"; "ts"; "hash"; "signature"]%string.

Definition read_fields : list string := ("id" :: verdict_fields)%string.

(** Two events with the same items under the given keys. *)
Definition agree_on (ks : list string) (e e' : dict) : Prop :=
  forall k, In k ks -> dict_item e (py k) = dict_item e' (py k).

(** A value in canonical form: every dict, at any depth, has distinct
    keys in ascending order. *)
Inductive canonical : value -> Prop :=
| canonical_none : canonical VNone
| canonical_bool b : canonical (VBool b)
| canonical_int n : canonical (VInt n)
| canonical_float f : canonical (VFloat f)
| canonical_str s : canonical (VStr s)
| canonical_list l : Forall canonical l -> canonical (VList l)
| canonical_dict d :
    NoDup (map fst d) -> keys_sorted (map fst d) ->
    Forall (fun kv => canonical (snd kv)) d ->
    canonical (VDict d).

(** A text made of printable ASCII characters (0x20 to 0x7e) only. *)
Definition printable_char (c : ascii) : bool :=
  let n := nat_of_ascii c in Nat.leb 32 n && Nat.leb n 126.

Definition printable (s : string) : bool :=
  forallb printable_char (list_ascii_of_string s).

End MoreNotions.

(** * Properties *)

Section Properties.

Context {PF : PyFloat} {RT : Runtime}.

(** ** Induction on values *)

Lemma value_ind (P : value -> Prop)
      (Hnone : P VNone)
      (Hbool : forall b, P (VBool b))
      (Hint : forall n, P (VInt n))
      (Hfloat : forall f, P (VFloat f))
      (Hstr : forall s, P (VStr s))
      (Hlist : forall l, Forall P l -> P (VList l))
      (Hdict : forall d, Forall (fun kv => P (snd kv)) d -> P (VDict d)) :
  forall v, P v.
Proof.
  fix IH 1. intros [ | b | n | f | s | l | d ].
  - exact Hnone.
  - apply Hbool.
  - apply Hint.
  - apply Hfloat.
  - apply Hstr.
  - apply Hlist. induction l as [ | x l IHl ]; constructor; [ apply IH | exact IHl ].
  - apply Hdict. induction d as [ | [k x] d IHd ]; constructor; [ apply IH | exact IHd ].
Qed.

(** ** Strings and their order *)

Lemma pystr_compare_eq (a b : pystr) : list_compare N.compare a b = Eq <-> a = b.
Proof. apply list_compare_refl. intros x y. apply N.compare_eq_iff. Qed.

Lemma pystr_compare_antisym (a b : pystr) :
  list_compare N.compare b a = CompOpp (list_compare N.compare a b).
Proof.
  apply list_compare_antisym.
  - intros x y. apply N.compare_eq_iff.
  - intros x y. apply N.compare_antisym.
Qed.

Lemma N_compare_trans (x y z : N) (c : comparison) :
  N.compare x y = c -> N.compare y z = c -> N.compare x z = c.
Proof.
  destruct c; intros H1 H2.
  - apply N.compare_eq_iff in H1, H2. subst. apply N.compare_refl.
  - rewrite N.compare_lt_iff in *. lia.
  - rewrite N.compare_gt_iff in *. lia.
Qed.

Lemma pystr_compare_trans (a b c : pystr) (r : comparison) :
  list_compare N.compare a b = r -> list_compare N.compare b c = r ->
  list_compare N.compare a c = r.
Proof.
  apply list_compare_trans.
  - intros x y. apply N.compare_eq_iff.
  - apply N_compare_trans.
  - intros x y. apply N.compare_antisym.
Qed.

Lemma pystr_eqb_eq (a b : pystr) : pystr_eqb a b = true <-> a = b.
Proof.
  unfold pystr_eqb. rewrite <- pystr_compare_eq.
  destruct (list_compare N.compare a b); split; congruence.
Qed.

Lemma pystr_eqb_refl (a : pystr) : pystr_eqb a a = true.
Proof. apply pystr_eqb_eq. reflexivity. Qed.

Lemma pystr_eqb_neq (a b : pystr) : pystr_eqb a b = false <-> a <> b.
Proof.
  rewrite <- pystr_eqb_eq. destruct (pystr_eqb a b); split; congruence.
Qed.

Lemma pystr_leb_total (a b : pystr) : pystr_leb a b = false -> pystr_leb b a = true.
Proof.
  unfold pystr_leb. rewrite (pystr_compare_antisym a b).
  destruct (list_compare N.compare a b); simpl; congruence.
Qed.

Lemma pystr_leb_antisym (a b : pystr) :
  pystr_leb a b = true -> pystr_leb b a = true -> a = b.
Proof.
  unfold pystr_leb. rewrite (pystr_compare_antisym a b).
  destruct (list_compare N.compare a b) eqn:E; simpl; try congruence.
  intros _ _. apply pystr_compare_eq. exact E.
Qed.

Lemma pystr_leb_trans (a b c : pystr) :
  pystr_leb a b = true -> pystr_leb b c = true -> pystr_leb a c = true.
Proof.
  unfold pystr_leb.
  destruct (list_compare N.compare a b) eqn:E1; try congruence;
    destruct (list_compare N.compare b c) eqn:E2; try congruence; intros _ _.
  - apply pystr_compare_eq in E1, E2. subst.
    rewrite (proj2 (pystr_compare_eq c c) eq_refl). reflexivity.
  - apply pystr_compare_eq in E1. subst. rewrite E2. reflexivity.
  - apply pystr_compare_eq in E2. subst. rewrite E1. reflexivity.
  - rewrite (pystr_compare_trans a b c Lt E1 E2). reflexivity.
Qed.

(** ** Dicts and sorting *)

Ltac leb_cases :=
  repeat match goal with
         | |- context [pystr_leb ?a ?b] =>
             let E := fresh "E" in destruct (pystr_leb a b) eqn:E
         end.

Ltac leb_absurd :=
  match goal with
  | H1 : pystr_leb ?a ?b = true, H2 : pystr_leb ?b ?a = true, N : ?a <> ?b |- _ =>
      exfalso; apply N; apply (pystr_leb_antisym a b H1 H2)
  | H1 : pystr_leb ?a ?b = true, H2 : pystr_leb ?b ?a = true, N : ?b <> ?a |- _ =>
      exfalso; apply N; apply (pystr_leb_antisym b a H2 H1)
  | H1 : pystr_leb ?a ?b = false, H2 : pystr_leb ?b ?a = false |- _ =>
      apply pystr_leb_total in H1; congruence
  | H1 : pystr_leb ?a ?b = true, H2 : pystr_leb ?b ?c = true,
    H3 : pystr_leb ?a ?c = false |- _ =>
      rewrite (pystr_leb_trans a b c H1 H2) in H3; discriminate
  | H1 : pystr_leb ?a ?b = false, H2 : pystr_leb ?c ?a = false,
    H3 : pystr_leb ?c ?b = true |- _ =>
      apply pystr_leb_total in H1; apply pystr_leb_total in H2;
      exfalso; pose proof (pystr_leb_trans _ _ _ H3 H1) as H4;
      pose proof (pystr_leb_antisym _ _ H2 H4); subst;
      match goal with N : ?x <> ?x |- _ => apply N; reflexivity | _ => idtac end
  end.

Lemma insert_item_comm {A} (a b : pystr * A) (l : list (pystr * A)) :
  fst a <> fst b ->
  insert_item a (insert_item b l) = insert_item b (insert_item a l).
Proof.
  intros N. induction l as [ | c l IH ]; simpl.
  - leb_cases; try reflexivity; leb_absurd.
  - destruct (pystr_leb (fst b) (fst c)) eqn:Ebc;
      destruct (pystr_leb (fst a) (fst c)) eqn:Eac; simpl;
      rewrite ?Ebc, ?Eac;
      destruct (pystr_leb (fst a) (fst b)) eqn:Eab;
      destruct (pystr_leb (fst b) (fst a)) eqn:Eba;
      try reflexivity; try leb_absurd.
    + rewrite IH. reflexivity.
    + rewrite IH. reflexivity.
Qed.


Lemma sorted_items_perm {A} (l l' : list (pystr * A)) :
  Permutation l l' -> NoDup (map fst l) -> sorted_items l = sorted_items l'.
Proof.
  induction 1 as [ | x l l' HP IH | x y l | l l' l'' HP1 IH1 HP2 IH2 ]; intros ND.
  - reflexivity.
  - simpl. inversion ND; subst. rewrite IH by assumption. reflexivity.
  - simpl. apply insert_item_comm.
    inversion ND as [ | ? ? Hy ND' ]; subst. intros E. apply Hy. left. symmetry. exact E.
  - rewrite IH1 by assumption. apply IH2.
    apply (Permutation_NoDup (l := map fst l)); [ apply Permutation_map; exact HP1 | exact ND ].
Qed.

Lemma insert_item_perm {A} (a : pystr * A) (l : list (pystr * A)) :
  Permutation (insert_item a l) (a :: l).
Proof.
  induction l as [ | c l IH ]; simpl.
  - apply Permutation_refl.
  - destruct (pystr_leb (fst a) (fst c)).
    + apply Permutation_refl.
    + eapply perm_trans; [ apply perm_skip; exact IH | apply perm_swap ].
Qed.

Lemma sorted_items_permutation {A} (l : list (pystr * A)) :
  Permutation (sorted_items l) l.
Proof.
  induction l as [ | a l IH ]; simpl.
  - constructor.
  - eapply perm_trans; [ apply insert_item_perm | apply perm_skip; exact IH ].
Qed.

Lemma perm_Forall {A} (P : A -> Prop) (l l' : list A) :
  Permutation l l' -> Forall P l -> Forall P l'.
Proof.
  intros HP HF. rewrite Forall_forall in *. intros x Hx.
  apply HF. apply (Permutation_in x (Permutation_sym HP) Hx).
Qed.

Lemma insert_item_sorted {A} (a : pystr * A) (l : list (pystr * A)) :
  keys_sorted (map fst l) -> keys_sorted (map fst (insert_item a l)).
Proof.
  unfold keys_sorted. induction l as [ | c l IH ]; simpl; intros HS.
  - constructor; constructor.
  - inversion HS as [ | ? ? HS' Hall ]; subst.
    destruct (pystr_leb (fst a) (fst c)) eqn:E; simpl.
    + constructor; [ exact HS | ]. constructor; [ exact E | ].
      eapply Forall_impl; [ | exact Hall ]. intros k Hk. simpl in Hk.
      apply (pystr_leb_trans _ _ _ E Hk).
    + constructor; [ apply IH; exact HS' | ].
      apply (perm_Forall _ (map fst (a :: l))).
      * apply Permutation_sym, Permutation_map, insert_item_perm.
      * simpl. constructor; [ apply pystr_leb_total; exact E | exact Hall ].
Qed.

Lemma sorted_items_sorted {A} (l : list (pystr * A)) :
  keys_sorted (map fst (sorted_items l)).
Proof.
  induction l as [ | a l IH ]; simpl.
  - constructor.
  - apply insert_item_sorted. exact IH.
Qed.

Lemma map_values_keys {A B} (f : A -> B) (l : list (pystr * A)) :
  map fst (map_values f l) = map fst l.
Proof. unfold map_values. rewrite map_map. reflexivity. Qed.

Lemma insert_item_map_values {A B} (f : A -> B) (a : pystr * A) (l : list (pystr * A)) :
  insert_item (fst a, f (snd a)) (map_values f l) = map_values f (insert_item a l).
Proof.
  induction l as [ | c l IH ]; simpl.
  - reflexivity.
  - destruct (pystr_leb (fst a) (fst c)); simpl.
    + reflexivity.
    + rewrite IH. reflexivity.
Qed.

Lemma sorted_items_map_values {A B} (f : A -> B) (l : list (pystr * A)) :
  sorted_items (map_values f l) = map_values f (sorted_items l).
Proof.
  induction l as [ | a l IH ]; simpl.
  - reflexivity.
  - rewrite IH. apply insert_item_map_values.
Qed.

Lemma dict_item_absent {A} (d : list (pystr * A)) (k : pystr) :
  dict_item d k = None <-> ~ In k (map fst d).
Proof.
  induction d as [ | [k' v] d IH ]; simpl.
  - split; [ intros _ [] | reflexivity ].
  - destruct (pystr_eqb k k') eqn:E.
    + apply pystr_eqb_eq in E. subst. split; [ discriminate | intros H; exfalso; apply H; left; reflexivity ].
    + apply pystr_eqb_neq in E. rewrite IH. split.
      * intros H [ H' | H' ]; [ apply E; symmetry; exact H' | apply H; exact H' ].
      * intros H H'. apply H. right. exact H'.
Qed.

Lemma dict_set_fresh {A} (d : list (pystr * A)) (k : pystr) (v : A) :
  ~ In k (map fst d) -> dict_set d k v = d ++ [(k, v)].
Proof.
  induction d as [ | [k' v'] d IH ]; simpl; intros H.
  - reflexivity.
  - destruct (pystr_eqb k k') eqn:E.
    + apply pystr_eqb_eq in E. exfalso. apply H. left. symmetry. exact E.
    + rewrite IH; [ reflexivity | intros H'; apply H; right; exact H' ].
Qed.

Lemma dict_of_items_from {A} (items acc : list (pystr * A)) :
  NoDup (map fst (acc ++ items)) ->
  fold_left (fun d kv => dict_set d (fst kv) (snd kv)) items acc = acc ++ items.
Proof.
  revert acc. induction items as [ | [k v] items IH ]; intros acc ND; simpl.
  - rewrite app_nil_r. reflexivity.
  - rewrite dict_set_fresh.
    + rewrite IH; rewrite <- app_assoc; [ reflexivity | exact ND ].
    + rewrite map_app in ND. simpl in ND. apply NoDup_remove_2 in ND.
      intros H. apply ND. apply in_or_app. left. exact H.
Qed.

Lemma dict_of_items_nodup {A} (items : list (pystr * A)) :
  NoDup (map fst items) -> dict_of_items items = items.
Proof. intros ND. unfold dict_of_items. rewrite dict_of_items_from; [ reflexivity | exact ND ]. Qed.

Lemma sorted_items_nodup {A} (l : list (pystr * A)) :
  NoDup (map fst l) -> NoDup (map fst (sorted_items l)).
Proof.
  apply Permutation_NoDup, Permutation_map, Permutation_sym, sorted_items_permutation.
Qed.

(** ** normalize *)

(** The dict branch as the source writes it: sort the items, normalize
    each value, build the dict. *)
Lemma normalize_dict (d : dict) :
  normalize (VDict d)
  = VDict (dict_of_items (map (fun kv => (fst kv, normalize (snd kv))) (sorted_items d))).
Proof. simpl. rewrite sorted_items_map_values. reflexivity. Qed.

Lemma normalize_dict_nodup (d : dict) :
  NoDup (map fst d) ->
  normalize (VDict d) = VDict (map_values normalize (sorted_items d)).
Proof.
  intros ND. rewrite normalize_dict. fold (map_values normalize (sorted_items d)).
  rewrite dict_of_items_nodup; [ reflexivity | ].
  rewrite map_values_keys. apply sorted_items_nodup. exact ND.
Qed.

Lemma map_Forall2 {A B} (R : A -> A -> Prop) (f : A -> B) (l l' : list A) :
  Forall2 R l l' ->
  Forall (fun x => forall y, R x y -> f x = f y) l ->
  map f l = map f l'.
Proof.
  induction 1 as [ | x y l l' Hxy HF IH ]; intros HA.
  - reflexivity.
  - inversion HA; subst. simpl. f_equal; auto.
Qed.

Lemma Forall_and_impl {A} (P Q R : A -> Prop) (l : list A) :
  Forall P l -> Forall Q l -> (forall x, P x -> Q x -> R x) -> Forall R l.
Proof.
  intros HP HQ H. rewrite Forall_forall in *. intros x Hx. apply H; auto.
Qed.

Lemma normalize_same (p : value) :
  forall q, wf_value p -> same_modulo_key_order p q -> normalize p = normalize q.
Proof.
  induction p as [ | b | n | f | s | l IH | d IH ] using value_ind;
    intros q WF R; inversion R; subst; try reflexivity.
  - (* lists *)
    simpl. f_equal. inversion WF as [ | | | | | ? WFl | ]; subst.
    eapply map_Forall2; [ eassumption | ].
    eapply Forall_and_impl; [ exact IH | exact WFl | ].
    intros x Hx Wx y Rxy. apply Hx; assumption.
  - (* dicts *)
    inversion WF as [ | | | | | | ? ND WFd ]; subst.
    match goal with HP : Permutation d ?d' |- _ => rename HP into HPerm; rename d' into d1 end.
    simpl. f_equal. f_equal.
    rewrite (sorted_items_perm (map_values normalize d) (map_values normalize d1)).
    + f_equal.
      pose proof (perm_Forall _ _ _ HPerm IH) as IH1.
      pose proof (perm_Forall _ _ _ HPerm WFd) as WF1.
      unfold map_values.
      eapply map_Forall2; [ eassumption | ].
      eapply Forall_and_impl; [ exact IH1 | exact WF1 | ].
      intros x Hx Wx y [Hk Hv]. simpl in *. rewrite Hk. f_equal. apply Hx; assumption.
    + unfold map_values. apply Permutation_map. exact HPerm.
    + rewrite map_values_keys. exact ND.
Qed.

(** ** The digest is lowercase hexadecimal *)

Lemma hex_digit_lower (d : Z) :
  0 <= d < 16 -> is_lower_hex (Sha256.hex_digit d) = true.
Proof.
  intros H.
  assert (E : d = 0 \/ d = 1 \/ d = 2 \/ d = 3 \/ d = 4 \/ d = 5 \/ d = 6 \/ d = 7
              \/ d = 8 \/ d = 9 \/ d = 10 \/ d = 11 \/ d = 12 \/ d = 13 \/ d = 14
              \/ d = 15) by lia.
  repeat (destruct E as [ E | E ]; [ subst d; reflexivity | ]).
  subst d; reflexivity.
Qed.

Lemma land_15_range (x : Z) : 0 <= Z.land x 15 < 16.
Proof.
  change 15 with (Z.ones 4). rewrite Z.land_ones by lia.
  apply Z.mod_pos_bound. reflexivity.
Qed.

Lemma hex_of_lower (n : nat) (x : Z) :
  List.length (Sha256.hex_of n x) = n
  /\ forallb is_lower_hex (Sha256.hex_of n x) = true.
Proof.
  revert x. induction n as [ | n IH ]; intros x; simpl.
  - split; reflexivity.
  - destruct (IH (Z.shiftr x 4)) as [ HL HA ]. split.
    + rewrite length_app, HL. simpl. lia.
    + rewrite forallb_app, HA. simpl.
      rewrite hex_digit_lower by apply land_15_range. reflexivity.
Qed.






(** ** The canonical encoding *)

Lemma canonical_json_fixed_order (event_type payload prev_hash ts : value) :
  canonical_json event_type payload prev_hash ts
  = spec_canonical_encoding event_type payload prev_hash ts.
Proof. reflexivity. Qed.


(** ** One pass of the loop *)

Lemma has_field_item (e : dict) (k : string) :
  has_field e k = true -> dict_item e (py k) = Some (get e k).
Proof.
  unfold has_field, get, dict_get. destruct (dict_item e (py k)); [ reflexivity | discriminate ].
Qed.

Lemma has_required_fields (e : dict) :
  has_required e = true ->
  has_field e "eventType" = true /\ has_field e "payload" = true
  /\ has_field e "ts" = true /\ has_field e "hash" = true.
Proof.
  unfold has_required, required_fields. cbn [forallb].
  rewrite !andb_true_iff. tauto.
Qed.

Lemma verify_signature_cases (pem : pystr) (sg h : value) :
  verify_signature pem sg h = ([], true) \/ verify_signature pem sg h = ([SigFailed], false).
Proof.
  unfold verify_signature. destruct (negb HAS_CRYPTO); [ left; reflexivity | ].
  destruct (try_verify pem sg h); [ left | right ]; reflexivity.
Qed.

Lemma truthy_get_item (e : dict) (k : string) :
  truthy (get e k) = true -> dict_item e (py k) = Some (get e k).
Proof.
  unfold get, dict_get. destruct (dict_item e (py k)); [ reflexivity | discriminate ].
Qed.

Lemma check_event_report (pk : option pystr) (i : nat) (e : dict)
      (valid : bool) (prev : value) :
  has_required e = true ->
  check_event pk i e valid prev
  = (event_report pk i e prev,
     inr (valid && event_passes pk i e prev, get e "hash")).
Proof.
  intros HR. destruct (has_required_fields e HR) as (H1 & H2 & H3 & H4).
  apply has_field_item in H1, H2, H3, H4.
  unfold check_event, item, event_report, event_passes, hash_report, link_report,
    signature_report, signature_fails, signature_checked, hash_fails, link_fails, digest.
  rewrite H1, H2, H3, H4.
  cbv beta iota zeta delta [bind ret print printed raise].
  destruct (py_ne (VStr (py (compute_hash (get e "eventType") (get e "payload")
                                          (get e "prevHash") (get e "ts"))))
                  (get e "hash")) eqn:Ehash;
    destruct (Nat.ltb 0 i) eqn:Ei;
    destruct (py_ne (get e "prevHash") prev) eqn:Elink;
    destruct (pem_truthy pk) eqn:Epk;
    destruct (truthy (get e "signature")) eqn:Esig;
    try (rewrite (truthy_get_item e "signature" Esig));
    try (destruct (verify_signature_cases (pem_text pk) (get e "signature") (get e "hash"))
          as [ Ev | Ev ]; rewrite Ev);
    destruct valid; reflexivity.
Qed.

Lemma has_field_none (e : dict) (k : string) :
  has_field e k = false -> dict_item e (py k) = None.
Proof.
  unfold has_field. destruct (dict_item e (py k)); [ discriminate | reflexivity ].
Qed.

Lemma first_missing_exists (e : dict) :
  has_required e = false -> exists k, first_missing e = Some k.
Proof.
  unfold has_required, first_missing, required_fields. cbn [forallb find].
  destruct (has_field e "eventType"); cbn [negb andb]; [ | eexists; reflexivity ].
  destruct (has_field e "payload"); cbn [negb andb]; [ | eexists; reflexivity ].
  destruct (has_field e "ts"); cbn [negb andb]; [ | eexists; reflexivity ].
  destruct (has_field e "hash"); cbn [negb andb]; [ discriminate | eexists; reflexivity ].
Qed.

Lemma first_missing_required (e : dict) (k : string) :
  first_missing e = Some k -> has_required e = false /\ In k required_fields.
Proof.
  unfold first_missing. intros H. pose proof (find_some _ _ H) as [ HI HF ].
  split; [ | exact HI ].
  unfold has_required. apply not_true_is_false. intros HA.
  rewrite forallb_forall in HA. rewrite (HA k HI) in HF. discriminate.
Qed.

(** An event that lacks a required field: the subscript raises KeyError,
    after the "Verifying" line and before any check has reported. *)
Lemma check_event_missing (pk : option pystr) (i : nat) (e : dict)
      (valid : bool) (prev : value) (k : string) :
  first_missing e = Some k ->
  check_event pk i e valid prev = ([Verifying (get e "id")], inl (KeyError (py k))).
Proof.
  unfold first_missing, required_fields. cbn [find].
  destruct (has_field e "eventType") eqn:F1; cbn [negb].
  2: { intros H; injection H as <-. apply has_field_none in F1.
       unfold check_event, item. rewrite F1. reflexivity. }
  destruct (has_field e "payload") eqn:F2; cbn [negb].
  2: { intros H; injection H as <-. apply has_field_item in F1. apply has_field_none in F2.
       unfold check_event, item. rewrite F1, F2. reflexivity. }
  destruct (has_field e "ts") eqn:F3; cbn [negb].
  2: { intros H; injection H as <-. apply has_field_item in F1, F2. apply has_field_none in F3.
       unfold check_event, item. rewrite F1, F2, F3. reflexivity. }
  destruct (has_field e "hash") eqn:F4; cbn [negb].
  2: { intros H; injection H as <-. apply has_field_item in F1, F2, F3.
       apply has_field_none in F4.
       unfold check_event, item. rewrite F1, F2, F3, F4. reflexivity. }
  discriminate.
Qed.

(** ** The loop *)

Lemma loop_cons_report (pk : option pystr) (i : nat) (e : dict) (es : list dict)
      (valid : bool) (prev : value) :
  has_required e = true ->
  loop pk i (e :: es) valid prev
  = (event_report pk i e prev
       ++ fst (loop pk (S i) es (valid && event_passes pk i e prev) (get e "hash")),
     snd (loop pk (S i) es (valid && event_passes pk i e prev) (get e "hash"))).
Proof.
  intros HR. cbn [loop]. rewrite (check_event_report pk i e valid prev HR).
  unfold bind. cbn [fst snd].
  destruct (loop pk (S i) es (valid && event_passes pk i e prev) (get e "hash")).
  reflexivity.
Qed.

Lemma loop_cons_missing (pk : option pystr) (i : nat) (e : dict) (es : list dict)
      (valid : bool) (prev : value) (k : string) :
  first_missing e = Some k ->
  loop pk i (e :: es) valid prev = ([Verifying (get e "id")], inl (KeyError (py k))).
Proof.
  intros HM. cbn [loop]. rewrite (check_event_missing pk i e valid prev k HM).
  reflexivity.
Qed.

Lemma loop_report (pk : option pystr) (es : list dict) :
  all_required es ->
  forall i valid prev,
    loop pk i es valid prev
    = (chain_report pk i es prev, inr (valid && chain_passes pk i es prev)).
Proof.
  induction 1 as [ | e es HR HF IH ]; intros i valid prev.
  - cbn. rewrite andb_true_r. reflexivity.
  - rewrite (loop_cons_report pk i e es valid prev HR). rewrite IH.
    cbn [fst snd chain_report chain_passes]. rewrite andb_assoc. reflexivity.
Qed.

Lemma loop_app_missing (pk : option pystr) (es1 : list dict) (e : dict)
      (es2 : list dict) (k : string) :
  all_required es1 -> first_missing e = Some k ->
  forall i valid prev,
    loop pk i (es1 ++ e :: es2) valid prev
    = (chain_report pk i es1 prev ++ [Verifying (get e "id")], inl (KeyError (py k))).
Proof.
  intros HA HM. induction HA as [ | e1 es1 HR HF IH ]; intros i valid prev.
  - cbn [app chain_report]. apply loop_cons_missing. exact HM.
  - cbn [app]. rewrite (loop_cons_report pk i e1 _ valid prev HR). rewrite IH.
    cbn [fst snd chain_report]. rewrite app_assoc. reflexivity.
Qed.

Lemma verify_chain_loop (pk : option pystr) (e : dict) (es : list dict) :
  verify_chain (e :: es) pk = loop pk 0 (e :: es) true VNone.
Proof. reflexivity. Qed.


Lemma verify_chain_nonempty (pk : option pystr) (es1 : list dict) (e : dict)
      (es2 : list dict) :
  verify_chain (es1 ++ e :: es2) pk = loop pk 0 (es1 ++ e :: es2) true VNone.
Proof. destruct es1; reflexivity. Qed.

Lemma event_report_findings (pk : option pystr) (i : nat) (e : dict) (prev : value) :
  findings (event_report pk i e prev)
  = (if hash_fails e then [FailHash (get e "id")] else [])
    ++ (if link_fails i e prev then [FailChain (get e "id")] else [])
    ++ (if signature_fails pk e then [FailSignature (get e "id")] else []).
Proof.
  unfold event_report, hash_report, link_report, signature_report, signature_fails.
  destruct (hash_fails e), (link_fails i e prev), (signature_checked pk e);
    try reflexivity;
    destruct (verify_signature_cases (pem_text pk) (get e "signature") (get e "hash"))
      as [ Ev | Ev ]; rewrite Ev; reflexivity.
Qed.

Lemma event_report_verifying (pk : option pystr) (i : nat) (e : dict) (prev : value) :
  filter is_verifying (event_report pk i e prev) = [Verifying (get e "id")].
Proof.
  unfold event_report, hash_report, link_report, signature_report.
  destruct (hash_fails e), (link_fails i e prev), (signature_checked pk e);
    try reflexivity;
    destruct (verify_signature_cases (pem_text pk) (get e "signature") (get e "hash"))
      as [ Ev | Ev ]; rewrite Ev; reflexivity.
Qed.

Lemma event_passes_transition (pk : option pystr) (i : nat) (e : dict) (prev : value) :
  event_passes pk i e prev
  = match spec_transition pk i e prev with [] => true | _ => false end.
Proof.
  unfold event_passes, spec_transition.
  destruct (hash_fails e), (link_fails i e prev), (signature_fails pk e); reflexivity.
Qed.

Lemma event_findings_transition (pk : option pystr) (evs : list dict) (i : nat)
      (e : dict) (prev : value) :
  nth i evs [] = e ->
  findings (event_report pk i e prev)
  = map (finding_line evs) (spec_transition pk i e prev).
Proof.
  intros Hn. rewrite event_report_findings. unfold spec_transition.
  rewrite !map_app.
  destruct (hash_fails e), (link_fails i e prev), (signature_fails pk e);
    cbn [map finding_line app]; rewrite ?Hn; reflexivity.
Qed.

Lemma chain_report_refines (pk : option pystr) (es pre : list dict) (prev : value) :
  findings (chain_report pk (List.length pre) es prev)
  = map (finding_line (pre ++ es)) (spec_verifier pk (List.length pre) es prev)
  /\ filter is_verifying (chain_report pk (List.length pre) es prev)
     = map (fun e => Verifying (get e "id")) es
  /\ chain_passes pk (List.length pre) es prev
     = match spec_verifier pk (List.length pre) es prev with [] => true | _ => false end.
Proof.
  revert pre prev. induction es as [ | e es IH ]; intros pre prev.
  - repeat split.
  - cbn [chain_report spec_verifier chain_passes map].
    specialize (IH (pre ++ [e]) (get e "hash")).
    rewrite length_app in IH. cbn [List.length] in IH.
    replace (List.length pre + 1)%nat with (S (List.length pre)) in IH by lia.
    rewrite <- app_assoc in IH. cbn [app] in IH.
    destruct IH as (IH1 & IH2 & IH3).
    unfold findings in *. rewrite !filter_app, map_app, IH1, IH2, IH3.
    rewrite event_report_verifying.
    fold (findings (event_report pk (List.length pre) e prev)).
    rewrite (event_findings_transition pk (pre ++ e :: es)).
    + rewrite event_passes_transition. repeat split.
      destruct (spec_transition pk (List.length pre) e prev); reflexivity.
    + rewrite app_nth2 by lia. rewrite Nat.sub_diag. reflexivity.
Qed.

(** C6 (amended): for the empty sequence the run returns at once, before
    any finding can be produced, and it returns valid = True: the only
    line printed is "No events to verify." *)
Theorem verify_chain_empty (pk : option pystr) :
  verify_chain [] pk = ([NoEvents], inr true)
  /\ findings (fst (verify_chain [] pk)) = [].
Proof. split; reflexivity. Qed.

(** C4 (amended): when an event lacks a required field (eventType,
    payload, ts or hash) and the events before it have theirs, no
    MissingField finding is emitted: reading the first missing field
    raises KeyError, right after that event's "Verifying" line.  The run
    ends there without a verdict; the events before it have been reported
    and the events after it are not scanned. *)
Theorem missing_field_aborts_run (pk : option pystr) (es1 : list dict) (e : dict)
        (es2 : list dict) :
  all_required es1 -> has_required e = false ->
  exists k,
    first_missing e = Some k /\ In k required_fields
    /\ verify_chain (es1 ++ e :: es2) pk
       = (chain_report pk 0 es1 VNone ++ [Verifying (get e "id")],
          inl (KeyError (py k))).
Proof.
  intros HA HR. destruct (first_missing_exists e HR) as [ k Hk ].
  exists k. split; [ exact Hk | ]. split.
  - apply (first_missing_required e k Hk).
  - rewrite verify_chain_nonempty. apply loop_app_missing; assumption.
Qed.

(** C7 (amended): when every event has its required fields, the loop
    visits every event, runs the three checks on each and never stops at
    a failure: the FAIL lines printed are, in order, exactly the findings
    of the specification's fold over the whole sequence, and the verdict
    is True exactly when there is none. *)
Theorem no_short_circuit (pk : option pystr) (events : list dict) :
  all_required events ->
  exists out,
    verify_chain events pk
    = (out, inr (match spec_verifier pk 0 events VNone with [] => true | _ => false end))
    /\ filter is_verifying out = map (fun e => Verifying (get e "id")) events
    /\ findings out = map (finding_line events) (spec_verifier pk 0 events VNone).
Proof.
  intros HA. destruct events as [ | e es ].
  - exists [NoEvents]. repeat split.
  - rewrite verify_chain_loop, (loop_report pk (e :: es) HA).
    destruct (chain_report_refines pk (e :: es) [] VNone) as (H1 & H2 & H3).
    cbn [List.length app] in H1, H2, H3.
    eexists. split; [ | split ].
    + rewrite H3. reflexivity.
    + exact H2.
    + exact H1.
Qed.


(** ** A chain that satisfies the three invariants *)

Lemma py_eq_str (s : pystr) (v : value) : py_eq (VStr s) v = true <-> v = VStr s.
Proof.
  unfold py_eq. destruct v; cbn [py_eq_at]; try (split; [ discriminate | discriminate ]).
  rewrite pystr_eqb_eq. split; [ intros ->; reflexivity | intros H; injection H as <-; reflexivity ].
Qed.

Lemma py_ne_str_refl (s : pystr) : py_ne (VStr s) (VStr s) = false.
Proof. unfold py_ne. rewrite (proj2 (py_eq_str s (VStr s)) eq_refl). reflexivity. Qed.

Lemma hash_invariant_passes (e : dict) :
  hash_invariant e ->
  has_required e = true /\ hash_fails e = false
  /\ get e "hash" = VStr (py (digest e)).
Proof.
  intros (et & p & ts & Het & Hp & Hts & Hh).
  assert (Get : get e "eventType" = et) by (unfold get, dict_get; rewrite Het; reflexivity).
  assert (Gp : get e "payload" = p) by (unfold get, dict_get; rewrite Hp; reflexivity).
  assert (Gts : get e "ts" = ts) by (unfold get, dict_get; rewrite Hts; reflexivity).
  assert (Gh : get e "hash" = VStr (py (digest e))).
  { unfold digest. rewrite Get, Gp, Gts. unfold get at 1, dict_get. rewrite Hh. reflexivity. }
  split; [ | split ].
  - unfold has_required, required_fields, has_field. cbn [forallb].
    rewrite Het, Hp, Hts, Hh. reflexivity.
  - unfold hash_fails. rewrite Gh. apply py_ne_str_refl.
  - exact Gh.
Qed.

Lemma try_verify_validates (pem : pystr) (sg h : value) :
  try_verify pem sg h = Some tt <-> signature_validates pem sg h.
Proof.
  unfold try_verify, signature_validates, option_bind. split.
  - destruct (utf8_encode pem) as [ pemb | ] eqn:E1; [ | discriminate ].
    destruct (load_pem_public_key pemb) as [ key | ] eqn:E2; [ | discriminate ].
    destruct (decode_signature sg) as [ sgb | ] eqn:E3; [ | discriminate ].
    destruct (on_str utf8_encode h) as [ data | ] eqn:E4; [ | discriminate ].
    destruct (public_key_verify key sgb data) eqn:E5; [ | discriminate ].
    intros _. exists pemb, key, sgb, data. repeat split; first [ reflexivity | assumption ].
  - intros (pemb & key & sgb & data & H1 & H2 & H3 & H4 & H5).
    rewrite H1, H2, H3, H4, H5. reflexivity.
Qed.

Lemma validates_verify_signature (pem : pystr) (sg h : value) :
  signature_validates pem sg h -> verify_signature pem sg h = ([], true).
Proof.
  intros H. apply try_verify_validates in H. unfold verify_signature.
  rewrite H. destruct (negb HAS_CRYPTO); reflexivity.
Qed.

Lemma signature_invariant_passes (pk : option pystr) (e : dict) :
  signature_invariant pk e -> signature_fails pk e = false.
Proof.
  unfold signature_invariant, signature_fails. intros H.
  destruct (signature_checked pk e); [ | reflexivity ].
  rewrite (validates_verify_signature _ _ _ (H eq_refl)). reflexivity.
Qed.

Lemma chain_passes_linked (pk : option pystr) (es : list dict) :
  Forall hash_invariant es -> Forall (signature_invariant pk) es ->
  forall i s, links_from (VStr s) es -> chain_passes pk i es (VStr s) = true.
Proof.
  induction es as [ | e es IH ]; intros HH HS i s HL.
  - reflexivity.
  - inversion HH as [ | ? ? He HH' ]; subst. inversion HS as [ | ? ? Hs HS' ]; subst.
    destruct HL as [ HL1 HL2 ].
    destruct (hash_invariant_passes e He) as (_ & Hf & Hg).
    cbn [chain_passes]. unfold event_passes, link_fails.
    rewrite Hf, (signature_invariant_passes pk e Hs), HL1, py_ne_str_refl, andb_false_r.
    cbn [negb andb]. rewrite Hg in *. apply IH; assumption.
Qed.

Lemma chain_passes_no_findings (pk : option pystr) (es : list dict) :
  forall i prev, chain_passes pk i es prev = true ->
                 findings (chain_report pk i es prev) = [].
Proof.
  induction es as [ | e es IH ]; intros i prev H.
  - reflexivity.
  - cbn [chain_passes] in H. apply andb_true_iff in H as [ H1 H2 ].
    cbn [chain_report]. unfold findings in *. rewrite filter_app.
    rewrite (IH _ _ H2), app_nil_r.
    fold (findings (event_report pk i e prev)). rewrite event_report_findings.
    unfold event_passes in H1. rewrite !andb_true_iff, !negb_true_iff in H1.
    destruct H1 as [ [ -> -> ] -> ]. reflexivity.
Qed.

Lemma all_required_invariant (es : list dict) :
  Forall hash_invariant es -> all_required es.
Proof.
  intros H. eapply Forall_impl; [ | exact H ].
  intros e He. apply (hash_invariant_passes e He).
Qed.

(** C1: when every event's stored hash is the SHA-256 digest of the
    canonical encoding of its eventType, payload, prevHash and ts, every
    event after the first carries the stored hash of the event before it
    as prevHash, and every signature that is checked validates over the
    UTF-8 bytes of the event's hash, verify_chain prints no finding and
    returns True. *)
Theorem valid_chain_verifies (pk : option pystr) (events : list dict) :
  Forall hash_invariant events ->
  link_invariant events ->
  Forall (signature_invariant pk) events ->
  snd (verify_chain events pk) = inr true
  /\ findings (fst (verify_chain events pk)) = [].
Proof.
  intros HH HL HS. destruct events as [ | e es ].
  - split; reflexivity.
  - rewrite verify_chain_loop, (loop_report pk (e :: es) (all_required_invariant _ HH)).
    cbn [fst snd andb].
    assert (HP : chain_passes pk 0 (e :: es) VNone = true).
    { inversion HH as [ | ? ? He HH' ]; subst. inversion HS as [ | ? ? Hs HS' ]; subst.
      destruct (hash_invariant_passes e He) as (_ & Hf & Hg).
      cbn [chain_passes]. unfold event_passes, link_fails.
      rewrite Hf, (signature_invariant_passes pk e Hs). cbn [Nat.ltb Nat.leb negb andb].
      cbn [link_invariant] in HL. rewrite Hg in *.
      apply chain_passes_linked; assumption. }
    split; [ rewrite HP; reflexivity | apply chain_passes_no_findings; exact HP ].
Qed.


(** ** A broken link does not cascade *)

Lemma event_report_succ (pk : option pystr) (i j : nat) (e : dict) (prev : value) :
  event_report pk (S i) e prev = event_report pk (S j) e prev.
Proof. reflexivity. Qed.

Lemma chain_report_succ (pk : option pystr) (es : list dict) :
  forall i j prev, chain_report pk (S i) es prev = chain_report pk (S j) es prev.
Proof.
  induction es as [ | e es IH ]; intros i j prev.
  - reflexivity.
  - cbn [chain_report]. rewrite (event_report_succ pk i j), (IH (S i) (S j)). reflexivity.
Qed.

Lemma chain_report_app (pk : option pystr) (es1 : list dict) (p : dict) (rest : list dict) :
  forall i prev,
    chain_report pk i (es1 ++ p :: rest) prev
    = chain_report pk i (es1 ++ [p]) prev
      ++ chain_report pk (S (i + List.length es1)) rest (get p "hash").
Proof.
  induction es1 as [ | e1 es1 IH ]; intros i prev.
  - cbn [app chain_report List.length]. rewrite Nat.add_0_r, app_nil_r. reflexivity.
  - cbn [app chain_report List.length]. rewrite IH, <- app_assoc.
    replace (S (S i + List.length es1)) with (S (i + S (List.length es1))) by lia.
    reflexivity.
Qed.

Lemma chain_passes_app (pk : option pystr) (es1 : list dict) (p : dict) (rest : list dict) :
  forall i prev,
    chain_passes pk i (es1 ++ p :: rest) prev
    = chain_passes pk i (es1 ++ [p]) prev
      && chain_passes pk (S (i + List.length es1)) rest (get p "hash").
Proof.
  induction es1 as [ | e1 es1 IH ]; intros i prev.
  - cbn [app chain_passes List.length]. rewrite Nat.add_0_r, andb_true_r. reflexivity.
  - cbn [app chain_passes List.length]. rewrite IH, andb_assoc.
    replace (S (S i + List.length es1)) with (S (i + S (List.length es1))) by lia.
    reflexivity.
Qed.

Lemma event_report_chain_break (pk : option pystr) (i : nat) (e : dict) (prev : value) :
  filter is_chain_break (event_report pk i e prev)
  = if link_fails i e prev then [FailChain (get e "id")] else [].
Proof.
  unfold event_report, hash_report, link_report, signature_report.
  destruct (hash_fails e), (link_fails i e prev), (signature_checked pk e);
    try reflexivity;
    destruct (verify_signature_cases (pem_text pk) (get e "signature") (get e "hash"))
      as [ Ev | Ev ]; rewrite Ev; reflexivity.
Qed.

Lemma links_ok_no_chain_break (pk : option pystr) (es : list dict) :
  forall i prev, links_ok_from prev es = true ->
                 filter is_chain_break (chain_report pk (S i) es prev) = [].
Proof.
  induction es as [ | e es IH ]; intros i prev H.
  - reflexivity.
  - cbn [links_ok_from] in H. apply andb_true_iff in H as [ H1 H2 ].
    cbn [chain_report]. rewrite filter_app, event_report_chain_break, (IH _ _ H2).
    unfold link_fails, py_ne. rewrite H1, andb_false_r. reflexivity.
Qed.

Lemma links_ok_first_no_chain_break (pk : option pystr) (es : list dict) :
  links_ok es = true -> filter is_chain_break (chain_report pk 0 es VNone) = [].
Proof.
  destruct es as [ | e es ]; intros H.
  - reflexivity.
  - cbn [links_ok] in H. cbn [chain_report].
    rewrite filter_app, event_report_chain_break, (links_ok_no_chain_break pk es 0 _ H).
    reflexivity.
Qed.

Lemma all_required_app (es1 es2 : list dict) :
  all_required (es1 ++ es2) -> all_required es1 /\ all_required es2.
Proof. unfold all_required. apply Forall_app. Qed.

(** C2: the loop sets previous_hash to the stored hash of the event it
    has just processed, whatever that event's findings were.  Hence, in a
    sequence whose links are all correct except that event e (after p)
    carries a prevHash different from p's stored hash, the run prints
    one "Chain broken" line, in e's block, and none before or after it;
    the lines printed for the events after e are those printed for them
    when the chain starting at e is verified on its own. *)
Theorem chain_break_does_not_cascade (pk : option pystr) (es1 : list dict)
        (p e : dict) (es2 : list dict) :
  all_required (es1 ++ p :: e :: es2) ->
  links_ok (es1 ++ [p]) = true ->
  links_ok (e :: es2) = true ->
  py_ne (get e "prevHash") (get p "hash") = true ->
  let i := S (List.length es1) in
  let tail := chain_report pk 1 es2 (get e "hash") in
  (forall ev j valid prev,
      In ev (es1 ++ p :: e :: es2) ->
      exists out valid',
        check_event pk j ev valid prev = (out, inr (valid', get ev "hash")))
  /\ verify_chain (es1 ++ p :: e :: es2) pk
     = (fst (verify_chain (es1 ++ [p]) pk)
          ++ event_report pk i e (get p "hash") ++ tail,
        inr false)
  /\ filter is_chain_break (fst (verify_chain (es1 ++ p :: e :: es2) pk))
     = [FailChain (get e "id")]
  /\ fst (verify_chain (e :: es2) pk) = event_report pk 0 e VNone ++ tail
  /\ filter is_chain_break (fst (verify_chain (es1 ++ [p]) pk)) = []
  /\ filter is_chain_break (event_report pk i e (get p "hash")) = [FailChain (get e "id")]
  /\ filter is_chain_break tail = [].
Proof.
  intros HA HL1 HL2 HB i tail.
  assert (HA' := HA). apply all_required_app in HA' as [ HA1 HA2 ].
  inversion HA2 as [ | ? ? Hp HA3 ]; subst.
  assert (HAp : all_required (es1 ++ [p])).
  { unfold all_required. apply Forall_app. split; [ exact HA1 | ]. constructor; [ exact Hp | constructor ]. }
  assert (Hfail : link_fails i e (get p "hash") = true).
  { unfold link_fails. rewrite HB. reflexivity. }
  assert (Hrun : verify_chain (es1 ++ p :: e :: es2) pk
                 = (fst (verify_chain (es1 ++ [p]) pk)
                      ++ event_report pk i e (get p "hash") ++ tail,
                    inr false)).
  { rewrite !verify_chain_nonempty, (loop_report pk _ HA), (loop_report pk _ HAp).
    cbn [fst andb]. rewrite chain_report_app, chain_passes_app.
    cbn [chain_report chain_passes Nat.add].
    rewrite (chain_report_succ pk es2 _ 0).
    fold i. unfold event_passes at 1. rewrite Hfail.
    cbn [negb]. rewrite andb_false_r. cbn [andb]. rewrite andb_false_r.
    reflexivity. }
  assert (Hpre : filter is_chain_break (fst (verify_chain (es1 ++ [p]) pk)) = []).
  { rewrite verify_chain_nonempty, (loop_report pk _ HAp). cbn [fst].
    apply links_ok_first_no_chain_break. exact HL1. }
  assert (Hmid : filter is_chain_break (event_report pk i e (get p "hash"))
                 = [FailChain (get e "id")]).
  { rewrite event_report_chain_break, Hfail. reflexivity. }
  assert (Htail : filter is_chain_break tail = []).
  { apply links_ok_no_chain_break. exact HL2. }
  split; [ | split; [ | split; [ | split; [ | split; [ | split ] ] ] ] ].
  - intros ev j valid prev Hin.
    unfold all_required in HA. rewrite Forall_forall in HA.
    rewrite (check_event_report pk j ev valid prev (HA ev Hin)).
    eexists. eexists. reflexivity.
  - exact Hrun.
  - rewrite Hrun. cbn [fst]. rewrite !filter_app, Hpre, Hmid, Htail. reflexivity.
  - rewrite verify_chain_loop, (loop_report pk _ HA3). reflexivity.
  - exact Hpre.
  - exact Hmid.
  - exact Htail.
Qed.


(** ** Skipped signature checks *)

Lemma signature_report_passes (pk : option pystr) (e : dict) :
  signature_fails pk e = false -> signature_report pk e = [].
Proof.
  unfold signature_fails, signature_report.
  destruct (signature_checked pk e); [ | reflexivity ].
  destruct (verify_signature_cases (pem_text pk) (get e "signature") (get e "hash"))
    as [ Ev | Ev ]; rewrite Ev; [ reflexivity | discriminate ].
Qed.

Lemma loop_same_when_signatures_pass (pk pk' : option pystr) (es : list dict) :
  Forall (fun e => signature_fails pk e = false) es ->
  Forall (fun e => signature_fails pk' e = false) es ->
  forall i valid prev, loop pk i es valid prev = loop pk' i es valid prev.
Proof.
  induction es as [ | e es IH ]; intros H H' i valid prev.
  - reflexivity.
  - inversion H as [ | ? ? He Hes ]; subst. inversion H' as [ | ? ? He' Hes' ]; subst.
    destruct (has_required e) eqn:HR.
    + rewrite !loop_cons_report by exact HR.
      unfold event_report, event_passes.
      rewrite (signature_report_passes pk e He), (signature_report_passes pk' e He').
      rewrite He, He'. rewrite (IH Hes Hes'). reflexivity.
    + destruct (first_missing_exists e HR) as [ k Hk ].
      rewrite !(loop_cons_missing _ i e es valid prev k Hk). reflexivity.
Qed.

Lemma loop_no_signature_lines (pk : option pystr) (es : list dict) :
  Forall (fun e => signature_fails pk e = false) es ->
  forall i valid prev,
    filter (fun l => is_signature_invalid l || is_sig_failed l)
           (fst (loop pk i es valid prev)) = [].
Proof.
  induction es as [ | e es IH ]; intros H i valid prev.
  - reflexivity.
  - inversion H as [ | ? ? He Hes ]; subst.
    destruct (has_required e) eqn:HR.
    + rewrite loop_cons_report by exact HR. cbn [fst].
      rewrite filter_app, (IH Hes), app_nil_r.
      unfold event_report. rewrite (signature_report_passes pk e He), app_nil_r.
      unfold hash_report, link_report.
      destruct (hash_fails e), (link_fails i e prev); reflexivity.
    + destruct (first_missing_exists e HR) as [ k Hk ].
      rewrite (loop_cons_missing _ i e es valid prev k Hk). reflexivity.
Qed.

(** C5 (amended): when the signature check is skipped, because no
    public key is supplied or because the events carry no signature, it
    is skipped without a trace: the run prints no "Signature invalid" and
    no "Signature verification failed" line, even when signatures are
    present, and its output and verdict are the very ones of a run with
    any key under which no signature check fails.  Nothing in the result
    marks the signatures as unverified. *)
Theorem skipped_signature_checks_are_silent (pk : option pystr) (events : list dict) :
  pem_truthy pk = false
  \/ Forall (fun e => truthy (get e "signature") = false) events ->
  Forall (fun e => signature_checked pk e = false) events
  /\ filter (fun l => is_signature_invalid l || is_sig_failed l)
            (fst (verify_chain events pk)) = []
  /\ forall pk',
      Forall (fun e => signature_fails pk' e = false) events ->
      verify_chain events pk = verify_chain events pk'.
Proof.
  intros Hskip.
  assert (HC : Forall (fun e => signature_checked pk e = false) events).
  { destruct Hskip as [ Hpk | Hsig ].
    - apply Forall_forall. intros e _. unfold signature_checked. rewrite Hpk. reflexivity.
    - eapply Forall_impl; [ | exact Hsig ]. intros e He. unfold signature_checked.
      rewrite He. apply andb_false_r. }
  assert (HF : Forall (fun e => signature_fails pk e = false) events).
  { eapply Forall_impl; [ | exact HC ]. intros e He. unfold signature_fails.
    rewrite He. reflexivity. }
  split; [ exact HC | ].
  destruct events as [ | e es ].
  - split; [ reflexivity | intros; reflexivity ].
  - rewrite verify_chain_loop. split.
    + apply loop_no_signature_lines. exact HF.
    + intros pk' HF'. rewrite verify_chain_loop.
      apply loop_same_when_signatures_pass; assumption.
Qed.

(** ** verify_signature *)

(** C9 (amended): with the cryptography package available,
    verify_signature returns True exactly when the PEM key loads, the
    signature decodes (base64 first, hexadecimal only when base64
    raises), the hash string encodes to UTF-8 and the key verifies the
    signature over those bytes of the hash; otherwise it returns False.
    Without the package it returns True without checking anything. *)
Theorem verify_signature_contract (pem : pystr) (sg h : value) :
  (if HAS_CRYPTO then
     (snd (verify_signature pem sg h) = true <-> signature_validates pem sg h)
     /\ (snd (verify_signature pem sg h) = false <-> ~ signature_validates pem sg h)
   else verify_signature pem sg h = ([], true))
  /\ decode_signature sg
     = match on_str b64decode sg with
       | Some b => Some b
       | None => on_str fromhex sg
       end.
Proof.
  split; [ | reflexivity ].
  unfold verify_signature. destruct HAS_CRYPTO; cbn [negb]; [ | reflexivity ].
  rewrite <- try_verify_validates.
  destruct (try_verify pem sg h) as [ [] | ]; cbn [snd]; split; split;
    try congruence; try discriminate; intros H; exfalso; apply H; reflexivity.
Qed.

(** ** Absent and null prevHash *)

Lemma dict_item_app {A} (l1 l2 : list (pystr * A)) (k : pystr) :
  dict_item (l1 ++ l2) k
  = match dict_item l1 k with Some v => Some v | None => dict_item l2 k end.
Proof.
  induction l1 as [ | [k' v] l1 IH ]; cbn [app dict_item].
  - reflexivity.
  - destruct (pystr_eqb k k'); [ reflexivity | exact IH ].
Qed.

Section NullPrevHash.

Variables l1 l2 : dict.
Hypothesis absent : dict_item (l1 ++ l2) (py "prevHash") = None.

Lemma null_prev_get (k : string) :
  get (l1 ++ (py "prevHash", VNone) :: l2) k = get (l1 ++ l2) k.
Proof.
  unfold get, dict_get. rewrite !dict_item_app. cbn [dict_item].
  pose proof absent as Ha. rewrite dict_item_app in Ha.
  destruct (dict_item l1 (py k)) eqn:E1; [ reflexivity | ].
  destruct (pystr_eqb (py k) (py "prevHash")) eqn:Ek; [ | reflexivity ].
  apply pystr_eqb_eq in Ek. rewrite Ek in *.
  destruct (dict_item l1 (py "prevHash")); [ discriminate | ].
  rewrite Ha. reflexivity.
Qed.

Lemma null_prev_has_field (k : string) :
  py k <> py "prevHash" ->
  has_field (l1 ++ (py "prevHash", VNone) :: l2) k = has_field (l1 ++ l2) k.
Proof.
  intros N. unfold has_field. rewrite !dict_item_app. cbn [dict_item].
  apply pystr_eqb_neq in N. rewrite N. reflexivity.
Qed.

Lemma null_prev_first_missing :
  first_missing (l1 ++ (py "prevHash", VNone) :: l2) = first_missing (l1 ++ l2).
Proof.
  unfold first_missing, required_fields. cbn [find].
  rewrite !null_prev_has_field by (vm_compute; discriminate). reflexivity.
Qed.

Lemma null_prev_has_required :
  has_required (l1 ++ (py "prevHash", VNone) :: l2) = has_required (l1 ++ l2).
Proof.
  unfold has_required, required_fields. cbn [forallb].
  rewrite !null_prev_has_field by (vm_compute; discriminate). reflexivity.
Qed.

Lemma null_prev_check_event (pk : option pystr) (i : nat) (valid : bool) (prev : value) :
  check_event pk i (l1 ++ (py "prevHash", VNone) :: l2) valid prev
  = check_event pk i (l1 ++ l2) valid prev.
Proof.
  destruct (has_required (l1 ++ l2)) eqn:HR.
  - rewrite !check_event_report by (rewrite ?null_prev_has_required; exact HR).
    unfold event_report, event_passes, hash_report, link_report, signature_report,
      signature_fails, signature_checked, hash_fails, link_fails, digest.
    rewrite !null_prev_get. reflexivity.
  - destruct (first_missing_exists _ HR) as [ k Hk ].
    rewrite (check_event_missing pk i (l1 ++ l2) valid prev k Hk).
    rewrite (check_event_missing pk i (l1 ++ (py "prevHash", VNone) :: l2) valid prev k)
      by (rewrite null_prev_first_missing; exact Hk).
    rewrite null_prev_get. reflexivity.
Qed.

End NullPrevHash.

(** C10: an event without a prevHash key and the same event with
    prevHash set to null (inserted at any place among its items) read the
    same prevHash, None, so they have the same canonical encoding and the
    same recomputed digest, and the loop treats them alike. *)
Theorem absent_prev_hash_is_null (l1 l2 : dict) :
  dict_item (l1 ++ l2) (py "prevHash") = None ->
  let e := l1 ++ l2 in
  let e' := l1 ++ (py "prevHash", VNone) :: l2 in
  get e "prevHash" = VNone /\ get e' "prevHash" = VNone
  /\ canonical_json (get e' "eventType") (get e' "payload") (get e' "prevHash") (get e' "ts")
     = canonical_json (get e "eventType") (get e "payload") (get e "prevHash") (get e "ts")
  /\ digest e' = digest e
  /\ forall pk i valid prev,
      check_event pk i e' valid prev = check_event pk i e valid prev.
Proof.
  intros Ha e e'.
  assert (G : get e "prevHash" = VNone).
  { unfold get, dict_get, e. rewrite Ha. reflexivity. }
  split; [ exact G | ]. split; [ unfold e'; rewrite (null_prev_get l1 l2 Ha); exact G | ].
  split; [ | split ].
  - unfold e'. rewrite !(null_prev_get l1 l2 Ha). reflexivity.
  - unfold digest, e'. rewrite !(null_prev_get l1 l2 Ha). reflexivity.
  - intros pk i valid prev. apply (null_prev_check_event l1 l2 Ha).
Qed.

(** ** Canonicalization *)

(** C3: two payloads that differ only in the insertion order of dict
    keys, at any depth, are normalized to the same value, so they have
    the same canonical encoding and the same SHA-256 digest.  A list is
    normalized element by element, in order; a dict has its values
    normalized and its items sorted by key; any other value is returned
    as it is. *)
Theorem canonicalization_determinism (p q : value) :
  wf_value p -> same_modulo_key_order p q ->
  normalize p = normalize q
  /\ (forall event_type prev_hash ts,
         canonical_json event_type p prev_hash ts = canonical_json event_type q prev_hash ts
         /\ compute_hash event_type p prev_hash ts = compute_hash event_type q prev_hash ts)
  /\ match p with
     | VList l => normalize p = VList (map normalize l)
     | VDict d =>
         normalize p = VDict (map_values normalize (sorted_items d))
         /\ keys_sorted (map fst (sorted_items d))
         /\ Permutation (sorted_items d) d
     | _ => normalize p = p
     end.
Proof.
  intros WF R. pose proof (normalize_same p q WF R) as HN.
  split; [ exact HN | ]. split.
  - intros event_type prev_hash ts. unfold compute_hash, canonical_json.
    rewrite HN. split; reflexivity.
  - destruct p; try reflexivity.
    inversion WF as [ | | | | | | ? ND WFd ]; subst.
    split; [ apply normalize_dict_nodup; exact ND | ].
    split; [ apply sorted_items_sorted | apply sorted_items_permutation ].
Qed.

End Properties.

(** * Further properties of the verifier *)

Section Coverage.

Context {PF : PyFloat} {RT : Runtime}.

(** ** When the run returns, and what a True verdict means *)

Lemma loop_returns_required (pk : option pystr) (es : list dict) :
  forall i valid prev out v,
    loop pk i es valid prev = (out, inr v) -> all_required es.
Proof.
  induction es as [ | e es IH ]; intros i valid prev out v H.
  - constructor.
  - destruct (has_required e) eqn:HR.
    + rewrite (loop_cons_report pk i e es valid prev HR) in H.
      constructor; [ exact HR | ].
      destruct (loop pk (S i) es (valid && event_passes pk i e prev) (get e "hash"))
        as [ out' r ] eqn:E.
      cbn [fst snd] in H. injection H as _ Hr. subst r.
      apply (IH _ _ _ _ _ E).
    + destruct (first_missing_exists e HR) as [ k Hk ].
      rewrite (loop_cons_missing pk i e es valid prev k Hk) in H. discriminate H.
Qed.

Lemma verify_chain_returns_loop (pk : option pystr) (events : list dict) :
  snd (verify_chain events pk) = snd (loop pk 0 events true VNone).
Proof. destruct events; reflexivity. Qed.

Lemma verify_chain_returns_required (pk : option pystr) (events : list dict) (v : bool) :
  snd (verify_chain events pk) = inr v -> all_required events.
Proof.
  rewrite verify_chain_returns_loop. intros H.
  destruct (loop pk 0 events true VNone) as [ out r ] eqn:E. cbn [snd] in H. subst r.
  apply (loop_returns_required pk events _ _ _ _ _ E).
Qed.


Lemma py_eq_str_r (s : pystr) (v : value) : py_eq v (VStr s) = true -> v = VStr s.
Proof.
  unfold py_eq. destruct v; cbn [py_eq_at]; try discriminate.
  intros H. apply pystr_eqb_eq in H. subst. reflexivity.
Qed.

Lemma negb_py_ne (a b : value) : py_ne a b = false -> py_eq a b = true.
Proof. unfold py_ne. destruct (py_eq a b); [ reflexivity | discriminate ]. Qed.

Lemma passes_hash_invariant (e : dict) :
  has_required e = true -> hash_fails e = false -> hash_invariant e.
Proof.
  intros HR HF. destruct (has_required_fields e HR) as (H1 & H2 & H3 & H4).
  apply has_field_item in H1, H2, H3, H4.
  exists (get e "eventType"), (get e "payload"), (get e "ts").
  repeat split; try assumption.
  rewrite H4. f_equal. unfold hash_fails in HF. apply negb_py_ne in HF.
  apply py_eq_str in HF. exact HF.
Qed.

Lemma event_passes_parts (pk : option pystr) (i : nat) (e : dict) (prev : value) :
  event_passes pk i e prev = true ->
  hash_fails e = false /\ link_fails i e prev = false /\ signature_fails pk e = false.
Proof.
  unfold event_passes. rewrite !andb_true_iff, !negb_true_iff. tauto.
Qed.

Lemma chain_passes_sound (pk : option pystr) (es : list dict) :
  all_required es ->
  forall i s, chain_passes pk (S i) es (VStr s) = true ->
              Forall hash_invariant es /\ links_from (VStr s) es
              /\ Forall (fun e => signature_fails pk e = false) es.
Proof.
  induction 1 as [ | e es HR HA IH ]; intros i s H.
  - repeat split; constructor.
  - cbn [chain_passes] in H. apply andb_true_iff in H as [ H1 H2 ].
    apply event_passes_parts in H1 as (Hh & Hl & Hs).
    pose proof (passes_hash_invariant e HR Hh) as HI.
    destruct (hash_invariant_passes e HI) as (_ & _ & Hg).
    rewrite Hg in H2. destruct (IH _ _ H2) as (I1 & I2 & I3).
    unfold link_fails in Hl. cbn [Nat.ltb Nat.leb andb] in Hl.
    apply negb_py_ne, py_eq_str_r in Hl.
    split; [ constructor; assumption | ]. split.
    + cbn [links_from]. rewrite Hg. split; assumption.
    + constructor; assumption.
Qed.

Lemma signature_passes_invariant (pk : option pystr) (e : dict) :
  HAS_CRYPTO = true -> signature_fails pk e = false -> signature_invariant pk e.
Proof.
  intros HC HF HS. unfold signature_fails in HF. rewrite HS in HF.
  cbn [andb] in HF. apply negb_false_iff in HF.
  apply try_verify_validates. unfold verify_signature in HF. rewrite HC in HF.
  cbn [negb] in HF.
  destruct (try_verify (pem_text pk) (get e "signature") (get e "hash")) as [ [] | ];
    [ reflexivity | discriminate HF ].
Qed.

(** X2: a True verdict is sound.  When verify_chain returns True, every
    event has its required fields and a stored hash equal to the digest
    recomputed from its eventType, payload, prevHash and ts, every event
    after the first carries the stored hash of its predecessor as
    prevHash, and no checked signature failed; with the cryptography
    package available, every checked signature validates over the UTF-8
    bytes of the stored hash. *)
Theorem true_verdict_sound (pk : option pystr) (events : list dict) :
  snd (verify_chain events pk) = inr true ->
  Forall hash_invariant events
  /\ link_invariant events
  /\ Forall (fun e => signature_fails pk e = false) events
  /\ (HAS_CRYPTO = true -> Forall (signature_invariant pk) events).
Proof.
  intros H.
  assert (HA : all_required events).
  { apply (verify_chain_returns_required pk events true H). }
  assert (Core : Forall hash_invariant events /\ link_invariant events
                 /\ Forall (fun e => signature_fails pk e = false) events).
  { rewrite verify_chain_returns_loop, (loop_report pk events HA) in H.
    cbn [snd andb] in H. injection H as H.
    destruct events as [ | e es ]; [ repeat split; constructor | ].
    inversion HA as [ | ? ? HR HA' ]; subst.
    cbn [chain_passes] in H. apply andb_true_iff in H as [ H1 H2 ].
    apply event_passes_parts in H1 as (Hh & _ & Hs).
    pose proof (passes_hash_invariant e HR Hh) as HI.
    destruct (hash_invariant_passes e HI) as (_ & _ & Hg).
    rewrite Hg in H2. destruct (chain_passes_sound pk es HA' _ _ H2) as (I1 & I2 & I3).
    split; [ constructor; assumption | ]. split.
    - cbn [link_invariant]. rewrite Hg. exact I2.
    - constructor; assumption. }
  destruct Core as (C1 & C2 & C3). repeat split; try assumption.
  intros HC. eapply Forall_impl; [ | exact C3 ].
  intros e He. apply signature_passes_invariant; assumption.
Qed.


(** ** Cutting and joining chains *)

Lemma event_passes_link (pk : option pystr) (i : nat) (e : dict) (prev : value) :
  event_passes pk (S i) e prev
  = py_eq (get e "prevHash") prev && event_passes pk 0 e VNone.
Proof.
  unfold event_passes, link_fails, py_ne. cbn [Nat.ltb Nat.leb andb negb].
  rewrite negb_involutive.
  destruct (hash_fails e), (py_eq (get e "prevHash") prev), (signature_fails pk e);
    reflexivity.
Qed.

Lemma chain_passes_succ (pk : option pystr) (es : list dict) :
  forall i j prev, chain_passes pk (S i) es prev = chain_passes pk (S j) es prev.
Proof.
  induction es as [ | e es IH ]; intros i j prev.
  - reflexivity.
  - cbn [chain_passes]. rewrite (IH (S i) (S j)). reflexivity.
Qed.

(** X3: a chain cut between two consecutive events p and e verifies
    exactly when both parts verify on their own and e's prevHash equals
    p's stored hash.  In particular every prefix and every suffix of a
    chain that verifies also verifies: removing events from either end
    is not detected. *)
Theorem verdict_of_joined_chains (pk : option pystr) (es1 : list dict) (p e : dict)
        (es2 : list dict) :
  all_required (es1 ++ p :: e :: es2) ->
  exists b1 b2,
    snd (verify_chain (es1 ++ [p]) pk) = inr b1
    /\ snd (verify_chain (e :: es2) pk) = inr b2
    /\ snd (verify_chain (es1 ++ p :: e :: es2) pk)
       = inr (b1 && py_eq (get e "prevHash") (get p "hash") && b2).
Proof.
  intros HA.
  assert (HA' := HA). apply all_required_app in HA' as [ HA1 HA2 ].
  inversion HA2 as [ | ? ? Hp HA3 ]; subst.
  assert (HAp : all_required (es1 ++ [p])).
  { unfold all_required. apply Forall_app. split; [ exact HA1 | ].
    constructor; [ exact Hp | constructor ]. }
  exists (chain_passes pk 0 (es1 ++ [p]) VNone), (chain_passes pk 0 (e :: es2) VNone).
  rewrite !verify_chain_nonempty, verify_chain_loop.
  rewrite (loop_report pk _ HA), (loop_report pk _ HAp), (loop_report pk _ HA3).
  cbn [snd andb]. repeat split.
  rewrite chain_passes_app. cbn [chain_passes].
  rewrite event_passes_link, (chain_passes_succ pk es2 _ 0), !andb_assoc. reflexivity.
Qed.

(** ** The fields that matter *)

(** The keys the loop reads, and those that decide the verdict. *)
Lemma get_agree (e e' : dict) (k : string) :
  dict_item e (py k) = dict_item e' (py k) -> get e k = get e' k.
Proof. unfold get, dict_get. intros ->. reflexivity. Qed.

Lemma has_field_agree (e e' : dict) (k : string) :
  dict_item e (py k) = dict_item e' (py k) -> has_field e k = has_field e' k.
Proof. unfold has_field. intros ->. reflexivity. Qed.

Lemma agree_verdict_fields (e e' : dict) :
  agree_on verdict_fields e e' ->
  has_required e = has_required e' /\ first_missing e = first_missing e'
  /\ digest e = digest e' /\ get e "hash" = get e' "hash"
  /\ get e "prevHash" = get e' "prevHash" /\ get e "signature" = get e' "signature".
Proof.
  intros H.
  assert (F : forall k, In k verdict_fields -> dict_item e (py k) = dict_item e' (py k))
    by exact H.
  assert (A1 := F "eventType"%string). assert (A2 := F "payload"%string).
  assert (A3 := F "prevHash"%string). assert (A4 := F "ts"%string).
  assert (A5 := F "hash"%string). assert (A6 := F "signature"%string).
  unfold verdict_fields in *. cbn [In] in *.
  specialize (A1 ltac:(tauto)). specialize (A2 ltac:(tauto)).
  specialize (A3 ltac:(tauto)). specialize (A4 ltac:(tauto)).
  specialize (A5 ltac:(tauto)). specialize (A6 ltac:(tauto)).
  unfold has_required, first_missing, required_fields, digest. cbn [forallb find].
  rewrite (has_field_agree e e' _ A1), (has_field_agree e e' _ A2),
    (has_field_agree e e' _ A4), (has_field_agree e e' _ A5).
  rewrite (get_agree e e' _ A1), (get_agree e e' _ A2), (get_agree e e' _ A3),
    (get_agree e e' _ A4), (get_agree e e' _ A5), (get_agree e e' _ A6).
  repeat split.
Qed.

Lemma agree_event_passes (pk : option pystr) (i : nat) (e e' : dict) (prev : value) :
  agree_on verdict_fields e e' ->
  event_passes pk i e prev = event_passes pk i e' prev.
Proof.
  intros H. destruct (agree_verdict_fields e e' H) as (_ & _ & Hd & Hh & Hp & Hs).
  unfold event_passes, hash_fails, link_fails, signature_fails, signature_checked.
  rewrite Hd, Hh, Hp, Hs. reflexivity.
Qed.



Lemma agree_read_fields (e e' : dict) :
  agree_on read_fields e e' ->
  agree_on verdict_fields e e' /\ get e "id" = get e' "id".
Proof.
  intros H. split.
  - intros k Hk. apply H. right. exact Hk.
  - apply get_agree. apply H. left. reflexivity.
Qed.

Lemma agree_check_event (pk : option pystr) (i : nat) (e e' : dict)
      (valid : bool) (prev : value) :
  agree_on read_fields e e' ->
  check_event pk i e valid prev = check_event pk i e' valid prev.
Proof.
  intros H. destruct (agree_read_fields e e' H) as [ Hv Hid ].
  destruct (agree_verdict_fields e e' Hv) as (Hr & Hm & Hd & Hh & Hp & Hs).
  symmetry in Hr. destruct (has_required e) eqn:HR.
  - rewrite (check_event_report pk i e valid prev HR).
    rewrite (check_event_report pk i e' valid prev) by exact Hr.
    rewrite (agree_event_passes pk i e e' prev Hv), Hh.
    unfold event_report, hash_report, link_report, signature_report,
      signature_checked, hash_fails, link_fails.
    rewrite Hid, Hd, Hh, Hp, Hs. reflexivity.
  - destruct (first_missing_exists e HR) as [ k Hk ].
    rewrite (check_event_missing pk i e valid prev k Hk).
    rewrite (check_event_missing pk i e' valid prev k) by (rewrite <- Hm; exact Hk).
    rewrite Hid. reflexivity.
Qed.

Lemma agree_loop (pk : option pystr) (es es' : list dict) :
  Forall2 (agree_on read_fields) es es' ->
  forall i valid prev, loop pk i es valid prev = loop pk i es' valid prev.
Proof.
  induction 1 as [ | e e' es es' He Hes IH ]; intros i valid prev.
  - reflexivity.
  - cbn [loop]. rewrite (agree_check_event pk i e e' valid prev He).
    destruct (check_event pk i e' valid prev) as [ out [ ex | st ] ]; cbn [bind].
    + reflexivity.
    + rewrite IH. reflexivity.
Qed.

Lemma dict_item_set_other {A} (d : list (pystr * A)) (k k' : pystr) (v : A) :
  k' <> k -> dict_item (dict_set d k v) k' = dict_item d k'.
Proof.
  intros N. induction d as [ | [ k0 v0 ] d IH ]; cbn [dict_set dict_item].
  - apply pystr_eqb_neq in N. rewrite N. reflexivity.
  - destruct (pystr_eqb k k0) eqn:E; cbn [dict_item].
    + apply pystr_eqb_eq in E. subst k0. apply pystr_eqb_neq in N. rewrite N. reflexivity.
    + rewrite IH. reflexivity.
Qed.

Lemma dict_item_set_same {A} (d : list (pystr * A)) (k : pystr) (v : A) :
  dict_item (dict_set d k v) k = Some v.
Proof.
  induction d as [ | [ k0 v0 ] d IH ]; cbn [dict_set dict_item].
  - rewrite pystr_eqb_refl. reflexivity.
  - destruct (pystr_eqb k k0) eqn:E; cbn [dict_item]; rewrite E; [ reflexivity | exact IH ].
Qed.

(** X5: the whole run (every printed line and the verdict) depends on
    the events only through the seven fields the loop reads.  Setting any
    other field of any event, to any value, changes nothing: a field such
    as an actor or signer id stored beside them is neither hashed nor
    checked. *)
Theorem unread_fields_are_ignored (pk : option pystr) (events : list dict)
        (k : pystr) (v : value) :
  ~ In k (map py read_fields) ->
  verify_chain (map (fun e => dict_set e k v) events) pk = verify_chain events pk
  /\ forall events',
      Forall2 (agree_on read_fields) events events' ->
      verify_chain events pk = verify_chain events' pk.
Proof.
  intros HN.
  assert (HG : forall es es', Forall2 (agree_on read_fields) es es' ->
                              verify_chain es pk = verify_chain es' pk).
  { intros es es' H. destruct H as [ | e e' es es' He Hes ]; [ reflexivity | ].
    rewrite !verify_chain_loop. apply agree_loop. constructor; assumption. }
  split; [ | apply HG ].
  apply HG. induction events as [ | e es IH ]; cbn [map]; constructor; [ | exact IH ].
  intros k' Hk'. apply dict_item_set_other.
  intros E. apply HN. rewrite <- E. apply in_map. exact Hk'.
Qed.

(** ** Without the cryptography package *)

(** X6: when the cryptography package is missing, every signature check
    passes: no run prints a signature finding, and the public key has no
    effect at all on the run. *)
Theorem mock_signatures_always_pass (pk : option pystr) (events : list dict) :
  HAS_CRYPTO = false ->
  Forall (fun e => signature_fails pk e = false) events
  /\ verify_chain events pk = verify_chain events None.
Proof.
  intros HC.
  assert (HF : forall pk', Forall (fun e => signature_fails pk' e = false) events).
  { intros pk'. apply Forall_forall. intros e _.
    unfold signature_fails, verify_signature. rewrite HC. cbn [negb snd].
    apply andb_false_r. }
  split; [ apply HF | ].
  destruct events as [ | e es ]; [ reflexivity | ].
  rewrite !verify_chain_loop. apply loop_same_when_signatures_pass; apply HF.
Qed.


(** ** Normal forms *)

Lemma insert_item_head {A} (kv : pystr * A) (l : list (pystr * A)) :
  Forall (fun k => pystr_leb (fst kv) k = true) (map fst l) ->
  insert_item kv l = kv :: l.
Proof.
  destruct l as [ | kv' l ]; [ reflexivity | ].
  cbn [map insert_item]. intros H. inversion H as [ | ? ? H1 _ ]; subst.
  rewrite H1. reflexivity.
Qed.

Lemma sorted_items_fixed {A} (l : list (pystr * A)) :
  keys_sorted (map fst l) -> sorted_items l = l.
Proof.
  unfold keys_sorted. induction l as [ | kv l IH ]; intros HS.
  - reflexivity.
  - cbn [map] in HS. inversion HS as [ | ? ? HS' HF ]; subst.
    cbn [sorted_items fold_right]. fold (sorted_items l). rewrite (IH HS').
    apply insert_item_head. exact HF.
Qed.

Lemma Forall_map_values {A B} (f : A -> B) (P : B -> Prop) (l : list (pystr * A)) :
  Forall (fun kv => P (f (snd kv))) l -> Forall (fun kv => P (snd kv)) (map_values f l).
Proof.
  induction 1; cbn [map_values map]; constructor; assumption.
Qed.

Lemma normalize_canonical (v : value) : wf_value v -> canonical (normalize v).
Proof.
  induction v as [ | b | n | f | s | l IH | d IH ] using value_ind; intros WF;
    try solve [ constructor ].
  - cbn [normalize]. constructor. inversion WF as [ | | | | | ? WFl | ]; subst.
    apply Forall_map. eapply Forall_and_impl; [ exact IH | exact WFl | ]. auto.
  - inversion WF as [ | | | | | | ? ND WFd ]; subst.
    rewrite (normalize_dict_nodup d ND). constructor.
    + rewrite map_values_keys. apply sorted_items_nodup. exact ND.
    + rewrite map_values_keys. apply sorted_items_sorted.
    + apply Forall_map_values.
      apply (perm_Forall _ d); [ apply Permutation_sym, sorted_items_permutation | ].
      eapply Forall_and_impl; [ exact IH | exact WFd | ]. auto.
Qed.

Lemma canonical_wf (v : value) : canonical v -> wf_value v.
Proof.
  induction v as [ | b | n | f | s | l IH | d IH ] using value_ind; intros C;
    try solve [ constructor ]; inversion C; subst; constructor.
  - eapply Forall_and_impl; [ exact IH | eassumption | ]. auto.
  - assumption.
  - eapply Forall_and_impl; [ exact IH | eassumption | ]. auto.
Qed.

Lemma map_id_Forall {A} (f : A -> A) (l : list A) :
  Forall (fun x => f x = x) l -> map f l = l.
Proof. induction 1; cbn [map]; congruence. Qed.

Lemma canonical_fixed (v : value) : canonical v -> normalize v = v.
Proof.
  induction v as [ | b | n | f | s | l IH | d IH ] using value_ind; intros C;
    try reflexivity; inversion C as [ | | | | | ? Cl | ? ND KS Cd ]; subst.
  - cbn [normalize]. f_equal. apply map_id_Forall.
    eapply Forall_and_impl; [ exact IH | exact Cl | ]. auto.
  - rewrite (normalize_dict_nodup d ND), (sorted_items_fixed d KS). f_equal.
    unfold map_values.
    assert (H : Forall (fun kv => (fst kv, normalize (snd kv)) = kv) d).
    { eapply Forall_and_impl; [ exact IH | exact Cd | ].
      intros [ k x ] Hx Cx. cbn [fst snd] in *. rewrite (Hx Cx). reflexivity. }
    apply map_id_Forall. exact H.
Qed.

(** X7: normalize maps every value to canonical form (every dict, at any
    depth, with its keys in ascending order), leaves exactly the
    canonical values unchanged, and is therefore idempotent. *)
Theorem normalize_is_projection (v : value) :
  wf_value v ->
  canonical (normalize v)
  /\ normalize (normalize v) = normalize v
  /\ (normalize v = v <-> canonical v).
Proof.
  intros WF. pose proof (normalize_canonical v WF) as C.
  split; [ exact C | ]. split; [ apply canonical_fixed; exact C | ].
  split; [ intros E; rewrite <- E; exact C | apply canonical_fixed ].
Qed.

(** ** Equality modulo key order *)

Lemma smko_refl (v : value) : same_modulo_key_order v v.
Proof.
  induction v as [ | b | n | f | s | l IH | d IH ] using value_ind;
    try solve [ constructor ].
  - constructor. induction IH; constructor; assumption.
  - apply (smko_dict d d d); [ apply Permutation_refl | ].
    induction IH; constructor; [ split; [ reflexivity | assumption ] | assumption ].
Qed.

Lemma Forall2_map_right {A B} (R : A -> B -> Prop) (f : A -> B) (l : list A) :
  Forall (fun x => R x (f x)) l -> Forall2 R l (map f l).
Proof. induction 1; cbn [map]; constructor; assumption. Qed.

Lemma normalize_related (v : value) :
  wf_value v -> same_modulo_key_order v (normalize v).
Proof.
  induction v as [ | b | n | f | s | l IH | d IH ] using value_ind; intros WF;
    try solve [ constructor ].
  - inversion WF as [ | | | | | ? WFl | ]; subst. cbn [normalize]. constructor.
    apply Forall2_map_right.
    eapply Forall_and_impl; [ exact IH | exact WFl | ]. auto.
  - inversion WF as [ | | | | | | ? ND WFd ]; subst.
    rewrite (normalize_dict_nodup d ND).
    apply (smko_dict d (sorted_items d));
      [ apply Permutation_sym, sorted_items_permutation | ].
    assert (H : Forall (fun kv => same_modulo_key_order (snd kv) (normalize (snd kv)))
                       (sorted_items d)).
    { apply (perm_Forall _ d); [ apply Permutation_sym, sorted_items_permutation | ].
      eapply Forall_and_impl; [ exact IH | exact WFd | ]. auto. }
    unfold map_values. apply Forall2_map_right.
    eapply Forall_impl; [ | exact H ]. intros kv Hkv. split; [ reflexivity | exact Hkv ].
Qed.

Lemma Forall2_flip_in {A} (R : A -> A -> Prop) (l m : list A) :
  Forall2 R l m -> Forall (fun x => forall y, R x y -> R y x) l -> Forall2 R m l.
Proof.
  induction 1 as [ | x y l m Hxy HF IH ]; intros HA; constructor;
    inversion HA; subst; auto.
Qed.

Lemma Forall2_trans_in {A} (R : A -> A -> Prop) (l m n : list A) :
  Forall2 R l m -> Forall2 R m n ->
  Forall (fun x => forall y z, R x y -> R y z -> R x z) l -> Forall2 R l n.
Proof.
  intros H. revert n. induction H as [ | x y l m Hxy HF IH ]; intros n Hmn HA.
  - inversion Hmn; subst. constructor.
  - inversion Hmn; subst. inversion HA; subst. constructor; eauto.
Qed.

Lemma Forall2_swap {A B} (R : A -> B -> Prop) (l : list A) (m : list B) :
  Forall2 R l m -> Forall2 (fun y x => R x y) m l.
Proof. induction 1; constructor; assumption. Qed.

Lemma smko_sym (p : value) : forall q, same_modulo_key_order p q -> same_modulo_key_order q p.
Proof.
  induction p as [ | b | n | f | s | l IH | d IH ] using value_ind;
    intros q R; inversion R; subst; try solve [ constructor ].
  - constructor. apply Forall2_flip_in; assumption.
  - match goal with HP : Permutation d ?d1, HF : Forall2 _ ?d1 ?e |- _ =>
      rename HP into HPerm; rename HF into HF2; rename d1 into d'; rename e into e0 end.
    assert (HF' : Forall2 (fun kv' kv => fst kv = fst kv'
                                         /\ same_modulo_key_order (snd kv) (snd kv')) d' e0).
    { pose proof (perm_Forall _ _ _ HPerm IH) as IH'. clear - HF2 IH'.
      induction HF2 as [ | x y l m [ Hk Hv ] HF IHF ]; constructor; inversion IH'; subst.
      - split; [ symmetry; exact Hk | auto ].
      - auto. }
    destruct (Permutation_Forall2 (Permutation_sym HPerm) HF') as (e1 & HP1 & HF1).
    apply (smko_dict e0 e1 d); [ exact HP1 | ].
    apply Forall2_swap in HF1. exact HF1.
Qed.

Lemma smko_trans (p : value) :
  forall q r, same_modulo_key_order p q -> same_modulo_key_order q r ->
              same_modulo_key_order p r.
Proof.
  induction p as [ | b | n | f | s | l IH | d IH ] using value_ind;
    intros q r R1 R2; inversion R1; subst; inversion R2; subst;
    try solve [ constructor ].
  - constructor. eapply Forall2_trans_in; eassumption.
  - match goal with
    | HP1 : Permutation d ?d1, HF1 : Forall2 _ ?d1 ?e1,
      HP2 : Permutation ?e1 ?e2, HF2 : Forall2 _ ?e2 ?f1 |- _ =>
        pose proof HP1 as P1; pose proof HF1 as F1;
        pose proof HP2 as P2; pose proof HF2 as F2;
        clear HP1 HF1 HP2 HF2
    end.
    apply Forall2_swap in F1.
    destruct (Permutation_Forall2 P2 F1) as (d2 & P3 & F3).
    apply Forall2_swap in F3.
    eapply (smko_dict d d2); [ eapply perm_trans; eassumption | ].
    pose proof (perm_Forall _ _ _ (perm_trans P1 P3) IH) as IH'.
    clear - F3 F2 IH'.
    match goal with |- Forall2 _ _ ?f1 => revert F2; generalize f1 end.
    induction F3 as [ | x y l m [ Hk Hv ] HF IHF ]; intros f0 F2;
      inversion F2 as [ | ? z ? n [ Hk' Hv' ] HF' ]; subst; constructor;
      inversion IH'; subst.
    + split; [ congruence | eauto ].
    + auto.
Qed.

(** X8: normalize identifies exactly the values that are equal up to the
    insertion order of dict keys: two values have the same normal form if
    and only if they differ at most in that order.  Nothing else is
    conflated before hashing. *)
Theorem normalize_decides_key_order (p q : value) :
  wf_value p -> wf_value q ->
  (normalize p = normalize q <-> same_modulo_key_order p q).
Proof.
  intros WFp WFq. split.
  - intros E. apply (smko_trans p (normalize p) q).
    + apply normalize_related. exact WFp.
    + rewrite E. apply smko_sym. apply normalize_related. exact WFq.
  - apply normalize_same. exact WFp.
Qed.

(** ** Serialization *)

Lemma map_values_comp {A B C} (f : A -> B) (g : B -> C) (l : list (pystr * A)) :
  map_values g (map_values f l) = map_values (fun x => g (f x)) l.
Proof. unfold map_values. rewrite map_map. reflexivity. Qed.

Lemma map_values_ext_in {A B} (f g : A -> B) (l : list (pystr * A)) :
  Forall (fun kv => f (snd kv) = g (snd kv)) l -> map_values f l = map_values g l.
Proof.
  unfold map_values. induction 1 as [ | kv l H HF IH ]; cbn [map]; [ reflexivity | ].
  rewrite H, IH. reflexivity.
Qed.

Lemma dumps_normalize (v : value) : wf_value v -> dumps (normalize v) = dumps v.
Proof.
  induction v as [ | b | n | f | s | l IH | d IH ] using value_ind; intros WF;
    try reflexivity.
  - inversion WF as [ | | | | | ? WFl | ]; subst. cbn [normalize dumps].
    rewrite map_map. do 3 f_equal.
    assert (H : Forall (fun x => dumps (normalize x) = dumps x) l).
    { eapply Forall_and_impl; [ exact IH | exact WFl | ]. auto. }
    clear - H. induction H; cbn [map]; congruence.
  - inversion WF as [ | | | | | | ? ND WFd ]; subst.
    rewrite (normalize_dict_nodup d ND). cbn [dumps]. do 4 f_equal.
    rewrite map_values_comp.
    rewrite (map_values_ext_in (fun x => dumps (normalize x)) dumps).
    + rewrite !sorted_items_map_values. f_equal.
      apply sorted_items_fixed. apply sorted_items_sorted.
    + apply (perm_Forall _ d); [ apply Permutation_sym, sorted_items_permutation | ].
      eapply Forall_and_impl; [ exact IH | exact WFd | ]. auto.
Qed.

Lemma dumps_same (p q : value) :
  wf_value p -> wf_value q -> same_modulo_key_order p q -> dumps p = dumps q.
Proof.
  intros WFp WFq R.
  rewrite <- (dumps_normalize p WFp), <- (dumps_normalize q WFq).
  rewrite (normalize_same p q WFp R). reflexivity.
Qed.

(** X9: with sort_keys=True the call to normalize is redundant: the
    canonical JSON, and so the digest, is the one obtained by dumping the
    record with the payload as it is. *)
Theorem normalize_is_redundant (event_type payload prev_hash ts : value) :
  wf_value payload ->
  canonical_json event_type payload prev_hash ts
  = dumps (VDict [ (py "eventType", event_type); (py "payload", payload);
                   (py "prevHash", prev_hash); (py "ts", ts) ])
  /\ compute_hash event_type payload prev_hash ts
     = Sha256.hexdigest
         (dumps (VDict [ (py "eventType", event_type); (py "payload", payload);
                         (py "prevHash", prev_hash); (py "ts", ts) ])).
Proof.
  intros WF.
  assert (E : canonical_json event_type payload prev_hash ts
              = dumps (VDict [ (py "eventType", event_type); (py "payload", payload);
                               (py "prevHash", prev_hash); (py "ts", ts) ])).
  { rewrite canonical_json_fixed_order. unfold spec_canonical_encoding, spec_field.
    rewrite (dumps_normalize payload WF). reflexivity. }
  split; [ exact E | ]. unfold compute_hash. rewrite E. reflexivity.
Qed.

(** X10: the digest does not depend on the insertion order of dict keys
    in any of the four hashed fields, not only in the payload. *)
Theorem digest_ignores_key_order (et et' p p' ph ph' ts ts' : value) :
  wf_value et -> wf_value et' -> same_modulo_key_order et et' ->
  wf_value p -> same_modulo_key_order p p' ->
  wf_value ph -> wf_value ph' -> same_modulo_key_order ph ph' ->
  wf_value ts -> wf_value ts' -> same_modulo_key_order ts ts' ->
  canonical_json et p ph ts = canonical_json et' p' ph' ts'
  /\ compute_hash et p ph ts = compute_hash et' p' ph' ts'.
Proof.
  intros W1 W1' R1 W2 R2 W3 W3' R3 W4 W4' R4.
  assert (E : canonical_json et p ph ts = canonical_json et' p' ph' ts').
  { rewrite !canonical_json_fixed_order. unfold spec_canonical_encoding, spec_field.
    rewrite (dumps_same et et' W1 W1' R1), (dumps_same ph ph' W3 W3' R3),
      (dumps_same ts ts' W4 W4' R4), (normalize_same p p' W2 R2). reflexivity. }
  split; [ exact E | ]. unfold compute_hash. rewrite E. reflexivity.
Qed.

(** ** The text that is hashed and the bytes that are signed *)

Lemma printable_app (a b : string) :
  printable (a ++ b) = printable a && printable b.
Proof.
  unfold printable. induction a as [ | c a IH ]; cbn [String.append list_ascii_of_string forallb].
  - reflexivity.
  - rewrite IH, andb_assoc. reflexivity.
Qed.

Lemma printable_concat (sep : string) (l : list string) :
  printable sep = true -> Forall (fun s => printable s = true) l ->
  printable (String.concat sep l) = true.
Proof.
  intros Hs. induction 1 as [ | x l Hx HF IH ]; [ reflexivity | ].
  cbn [String.concat]. destruct l as [ | y l ]; [ exact Hx | ].
  rewrite !printable_app, Hx, Hs. exact IH.
Qed.

Lemma lower_hex_printable (l : list ascii) :
  forallb is_lower_hex l = true -> forallb printable_char l = true.
Proof.
  induction l as [ | c l IH ]; cbn [forallb]; [ reflexivity | ].
  rewrite !andb_true_iff. intros [ Hc Hl ]. split; [ | auto ].
  unfold is_lower_hex in Hc. unfold printable_char.
  rewrite orb_true_iff, !andb_true_iff, !Nat.leb_le in *. lia.
Qed.

Lemma hex4_printable (n : Z) : printable (hex4 n) = true.
Proof.
  unfold printable, hex4. rewrite list_ascii_of_string_of_list_ascii.
  apply lower_hex_printable. apply (hex_of_lower 4 n).
Qed.

Lemma escape_char_printable (c : N) : printable (escape_char c) = true.
Proof.
  unfold escape_char.
  repeat match goal with
         | |- context [if ?b then _ else _] => destruct b eqn:?
         end;
    rewrite ?printable_app, ?hex4_printable; try reflexivity.
  unfold printable, printable_char. cbn [list_ascii_of_string forallb].
  match goal with H : (_ <=? _) && (_ <=? _) = true |- _ =>
    apply andb_true_iff in H as [ H1 H2 ]; apply Z.leb_le in H1, H2 end.
  unfold nat_of_ascii. rewrite N_ascii_embedding by lia.
  rewrite andb_true_r, andb_true_iff, !Nat.leb_le. lia.
Qed.

Lemma encode_basestring_printable (s : pystr) :
  printable (encode_basestring_ascii s) = true.
Proof.
  unfold encode_basestring_ascii. rewrite !printable_app.
  rewrite printable_concat; [ reflexivity | reflexivity | ].
  apply Forall_map. apply Forall_forall. intros c _. apply escape_char_printable.
Qed.

Lemma uint_printable (d : Decimal.uint) :
  printable (DecimalString.NilEmpty.string_of_uint d) = true.
Proof. induction d; cbn; try reflexivity; exact IHd. Qed.

Lemma uint_zero_printable (d : Decimal.uint) :
  printable (DecimalString.NilZero.string_of_uint d) = true.
Proof.
  destruct d; try reflexivity;
    unfold DecimalString.NilZero.string_of_uint; apply uint_printable.
Qed.

Lemma int_repr_printable (n : Z) : printable (int_repr n) = true.
Proof.
  unfold int_repr, DecimalString.NilZero.string_of_int.
  destruct (Z.to_int n) as [ d | d ].
  - apply uint_zero_printable.
  - change (String "-" (DecimalString.NilZero.string_of_uint d))
      with ("-" ++ DecimalString.NilZero.string_of_uint d)%string.
    rewrite printable_app, uint_zero_printable. reflexivity.
Qed.

Section PrintableFloats.

Hypothesis float_repr_printable : forall f, printable (float_repr f) = true.

Lemma dumps_printable (v : value) : printable (dumps v) = true.
Proof.
  induction v as [ | b | n | f | s | l IH | d IH ] using value_ind; cbn [dumps].
  - reflexivity.
  - destruct b; reflexivity.
  - apply int_repr_printable.
  - apply float_repr_printable.
  - apply encode_basestring_printable.
  - rewrite !printable_app. rewrite printable_concat; [ reflexivity | reflexivity | ].
    apply Forall_map. exact IH.
  - rewrite !printable_app. rewrite printable_concat; [ reflexivity | reflexivity | ].
    apply Forall_map.
    apply (perm_Forall _ (map_values dumps d));
      [ apply Permutation_sym, sorted_items_permutation | ].
    unfold map_values. apply Forall_map.
    eapply Forall_impl; [ | exact IH ]. intros [ k x ] Hx. cbn [fst snd] in *.
    rewrite !printable_app, encode_basestring_printable, Hx. reflexivity.
Qed.

End PrintableFloats.

Lemma utf8_printable (s : string) :
  printable s = true -> utf8_encode (py s) = Some (Sha256.bytes_of_string s).
Proof.
  unfold printable, py, Sha256.bytes_of_string.
  induction s as [ | c s IH ]; cbn [list_ascii_of_string forallb map utf8_encode].
  - reflexivity.
  - rewrite andb_true_iff. intros [ Hc Hs ]. rewrite (IH Hs).
    unfold printable_char in Hc. apply andb_true_iff in Hc as [ H1 H2 ].
    apply Nat.leb_le in H1, H2. unfold nat_of_ascii in *.
    unfold utf8_char.
    assert (E : Z.of_N (N_of_ascii c) = Z.of_nat (N.to_nat (N_of_ascii c)))
      by (rewrite N_nat_Z; reflexivity).
    rewrite E.
    destruct (Z.of_nat (N.to_nat (N_of_ascii c)) <? 128) eqn:L.
    + reflexivity.
    + apply Z.ltb_ge in L. lia.
Qed.

(** X11: provided floats are written in printable ASCII, the text that
    json.dumps produces for any value, and in particular the canonical
    JSON, contains only printable ASCII characters (0x20 to 0x7e); so
    encoding it to UTF-8 cannot fail and yields the text byte for byte. *)
Theorem canonical_json_is_ascii (event_type payload prev_hash ts : value) :
  (forall f, printable (float_repr f) = true) ->
  (forall v, printable (dumps v) = true)
  /\ printable (canonical_json event_type payload prev_hash ts) = true
  /\ utf8_encode (py (canonical_json event_type payload prev_hash ts))
     = Some (Sha256.bytes_of_string (canonical_json event_type payload prev_hash ts)).
Proof.
  intros HF. pose proof (dumps_printable HF) as HD.
  split; [ exact HD | ].
  assert (HP : printable (canonical_json event_type payload prev_hash ts) = true)
    by apply HD.
  split; [ exact HP | apply utf8_printable; exact HP ].
Qed.



(** ** The driver *)

Section DriverProperties.

Context {W : World}.







(** *** Events from the object store *)

Lemma all_some_perm {A B} (f : A -> option B) (l1 l2 : list A) :
  Permutation l1 l2 ->
  forall r1, all_some f l1 = Some r1 ->
             exists r2, all_some f l2 = Some r2 /\ Permutation r1 r2.
Proof.
  induction 1 as [ | x l l' HP IH | x y l | l l' l'' HP1 IH1 HP2 IH2 ]; intros r1 H.
  - exists []. cbn in *. injection H as <-. split; [ reflexivity | constructor ].
  - cbn [all_some] in *. destruct (f x) as [ b | ]; [ | discriminate H ].
    destruct (all_some f l) as [ bs | ]; [ | discriminate H ]. injection H as <-.
    destruct (IH bs eq_refl) as (r2 & -> & HP2). exists (b :: r2).
    split; [ reflexivity | constructor; exact HP2 ].
  - cbn [all_some] in *. destruct (f y) as [ b | ]; [ | discriminate H ].
    destruct (f x) as [ c | ]; [ | discriminate H ].
    destruct (all_some f l) as [ bs | ]; [ | discriminate H ]. injection H as <-.
    exists (c :: b :: bs). split; [ reflexivity | apply perm_swap ].
  - destruct (IH1 r1 H) as (r2 & H2 & P2). destruct (IH2 r2 H2) as (r3 & H3 & P3).
    exists r3. split; [ exact H3 | eapply perm_trans; eassumption ].
Qed.

Lemma all_some_none {A B} (f : A -> option B) (l : list A) (x : A) :
  In x l -> f x = None -> all_some f l = None.
Proof.
  induction l as [ | y l IH ]; intros HI HN; [ destruct HI | ].
  cbn [all_some]. destruct HI as [ -> | HI ].
  - rewrite HN. reflexivity.
  - rewrite (IH HI HN). destruct (f y); reflexivity.
Qed.

Lemma str_ts_tagged (l : list value) (ks : list pystr) :
  all_some str_ts l = Some ks ->
  exists skvs, all_some str_tagged l = Some skvs
               /\ map fst skvs = ks /\ map snd skvs = l.
Proof.
  revert ks. induction l as [ | x l IH ]; intros ks H.
  - cbn in H. injection H as <-. exists []. repeat split.
  - cbn [all_some] in *. unfold str_tagged at 1.
    destruct (str_ts x) as [ s | ]; [ | discriminate H ].
    destruct (all_some str_ts l) as [ ks' | ]; [ | discriminate H ]. injection H as <-.
    destruct (IH ks' eq_refl) as (skvs & -> & <- & E).
    exists ((s, x) :: skvs). cbn [map fst snd]. rewrite E. repeat split.
Qed.

Lemma tagged_keys (l : list value) (skvs : list (pystr * value)) :
  all_some str_tagged l = Some skvs ->
  exists kvs, all_some ts_key l = Some kvs /\ all_some str_key kvs = Some skvs
              /\ List.length kvs = List.length l
              /\ Forall (fun kv => str_ts (snd kv) = Some (fst kv)) skvs
              /\ map snd skvs = l.
Proof.
  revert skvs. induction l as [ | x l IH ]; intros skvs H.
  - cbn in H. injection H as <-. exists []. repeat split. constructor.
  - cbn [all_some] in *. unfold str_tagged at 1 in H.
    destruct (str_ts x) as [ s | ] eqn:Es; [ | discriminate H ].
    destruct (all_some str_tagged l) as [ skvs' | ]; [ | discriminate H ].
    injection H as <-.
    destruct (IH skvs' eq_refl) as (kvs & -> & Hk & Hl & HF & Hm).
    unfold str_ts in Es.
    destruct (ts_key x) as [ [ k y ] | ] eqn:Ek; [ | discriminate Es ].
    destruct k; try discriminate Es. injection Es as ->.
    assert (y = x).
    { unfold ts_key in Ek. destruct x; try discriminate Ek.
      destruct (dict_item d (py "ts")); [ | discriminate Ek ].
      injection Ek as _ <-. reflexivity. }
    subst y. exists ((VStr s, x) :: kvs). cbn [all_some str_key fst snd].
    rewrite Hk. cbn [List.length map fst snd]. rewrite Hl, Hm.
    repeat split. constructor; [ | exact HF ].
    cbn [fst snd]. unfold str_ts. rewrite Ek. reflexivity.
Qed.

Lemma sort_by_ts_strings (l : list value) (skvs : list (pystr * value)) :
  all_some str_tagged l = Some skvs ->
  sort_by_ts l = Some (map snd (sorted_items skvs)).
Proof.
  intros H. destruct (tagged_keys l skvs H) as (kvs & Hk & Hs & Hl & _ & Hm).
  unfold sort_by_ts. rewrite Hk.
  destruct kvs as [ | kv1 [ | kv2 kvs ] ].
  - cbn in Hs. injection Hs as <-. destruct l; [ reflexivity | discriminate Hl ].
  - cbn [all_some] in Hs. destruct (str_key kv1); [ | discriminate Hs ].
    injection Hs as <-. cbn [sorted_items fold_right insert_item]. rewrite Hm. reflexivity.
  - rewrite Hs. reflexivity.
Qed.

Lemma all_some_tagged_pairs {A B} (f : A -> option B) (l : list (B * A)) :
  Forall (fun kv => f (snd kv) = Some (fst kv)) l ->
  all_some f (map snd l) = Some (map fst l).
Proof.
  induction 1 as [ | kv l H HF IH ]; [ reflexivity | ].
  cbn [map all_some]. rewrite H, IH. reflexivity.
Qed.

Lemma load_events_s3 (a : args) (bodies : list value) :
  given (args_file a) = false -> given (args_s3_bucket a) = true ->
  HAS_BOTO3 = true ->
  s3_objects (text_of (args_s3_bucket a))
             (if given (args_s3_prefix a) then text_of (args_s3_prefix a) else [])
  = S3Bodies bodies ->
  load_events a
  = match sort_by_ts bodies with
    | None => ([ErrorFetching], inl (Exit 1))
    | Some events => ([], inr events)
    end.
Proof.
  intros H1 H2 H3 H4. unfold load_events. rewrite H1, H2, H3, H4. reflexivity.
Qed.

(** X14: when the timestamps of the fetched events are pairwise distinct
    strings, the order in which the object store lists them is
    irrelevant: every listing order is sorted into the same sequence, in
    ascending order of ts, and main behaves the same on it. *)
Theorem s3_listing_order_is_irrelevant (l1 l2 : list value) (ks : list pystr) :
  Permutation l1 l2 ->
  all_some str_ts l1 = Some ks ->
  NoDup ks ->
  (exists sorted ks',
      sort_by_ts l1 = Some sorted /\ sort_by_ts l2 = Some sorted
      /\ Permutation sorted l1
      /\ all_some str_ts sorted = Some ks' /\ keys_sorted ks')
  /\ forall a1 a2,
      HAS_BOTO3 = true ->
      given (args_file a1) = false -> given (args_s3_bucket a1) = true ->
      given (args_file a2) = false -> given (args_s3_bucket a2) = true ->
      s3_objects (text_of (args_s3_bucket a1))
                 (if given (args_s3_prefix a1) then text_of (args_s3_prefix a1) else [])
      = S3Bodies l1 ->
      s3_objects (text_of (args_s3_bucket a2))
                 (if given (args_s3_prefix a2) then text_of (args_s3_prefix a2) else [])
      = S3Bodies l2 ->
      args_public_key a1 = args_public_key a2 ->
      main a1 = main a2.
Proof.
  intros HP Hks ND.
  destruct (str_ts_tagged l1 ks Hks) as (skvs1 & Ht1 & Hf1 & Hs1).
  destruct (all_some_perm str_tagged l1 l2 HP skvs1 Ht1) as (skvs2 & Ht2 & HP2).
  pose proof (sort_by_ts_strings l1 skvs1 Ht1) as S1.
  pose proof (sort_by_ts_strings l2 skvs2 Ht2) as S2.
  assert (E : sorted_items skvs1 = sorted_items skvs2).
  { apply sorted_items_perm; [ exact HP2 | rewrite Hf1; exact ND ]. }
  rewrite <- E in S2.
  split.
  - exists (map snd (sorted_items skvs1)), (map fst (sorted_items skvs1)).
    split; [ exact S1 | ]. split; [ exact S2 | ]. split; [ | split ].
    + rewrite <- Hs1. apply Permutation_map. apply sorted_items_permutation.
    + apply all_some_tagged_pairs.
      destruct (tagged_keys l1 skvs1 Ht1) as (_ & _ & _ & _ & HF & _).
      apply (perm_Forall _ skvs1);
        [ apply Permutation_sym, sorted_items_permutation | exact HF ].
    + apply sorted_items_sorted.
  - intros a1 a2 HB F1 B1 F2 B2 O1 O2 HK. unfold main, load_key.
    rewrite (load_events_s3 a1 l1 F1 B1 HB O1), (load_events_s3 a2 l2 F2 B2 HB O2).
    rewrite S1, S2, HK. reflexivity.
Qed.

(** X15: in object-store mode, a fetched object that is not a JSON
    object, or that has no ts, makes the sort raise inside the try block:
    main prints "Error fetching from S3" and exits with status 1 before
    any event is verified. *)
Theorem s3_event_without_ts_stops_main (a : args) (bodies : list value) (x : value) :
  given (args_file a) = false -> given (args_s3_bucket a) = true ->
  HAS_BOTO3 = true ->
  s3_objects (text_of (args_s3_bucket a))
             (if given (args_s3_prefix a) then text_of (args_s3_prefix a) else [])
  = S3Bodies bodies ->
  In x bodies ->
  (forall d, x = VDict d -> dict_item d (py "ts") = None) ->
  main a = ([ErrorFetching], Exit 1).
Proof.
  intros H1 H2 H3 H4 HI HX. unfold main.
  rewrite (load_events_s3 a bodies H1 H2 H3 H4).
  assert (HN : ts_key x = None).
  { unfold ts_key. destruct x; try reflexivity. rewrite (HX d eq_refl). reflexivity. }
  unfold sort_by_ts. rewrite (all_some_none ts_key bodies x HI HN). reflexivity.
Qed.

(** *** Events that are not JSON objects *)

Lemma loop_any_non_dict (pk : option pystr) (ds : list dict) (x : value)
      (rest : list value) :
  all_required ds -> (forall d, x <> VDict d) ->
  forall i valid prev,
    loop_any pk i (map VDict ds ++ x :: rest) valid prev
    = (chain_report pk i ds prev, inl AttributeError).
Proof.
  intros HA HX. induction HA as [ | e ds HR HF IH ]; intros i valid prev.
  - cbn [map app chain_report]. destruct x; try reflexivity.
    exfalso. apply (HX d). reflexivity.
  - cbn [map app loop_any]. rewrite (check_event_report pk i e valid prev HR).
    cbn [fst snd]. rewrite IH. cbn [chain_report]. reflexivity.
Qed.

(** X16: an element of the event list that is not a JSON object (a
    number, a string, null, a nested list) is not reported as a finding:
    when the loop reaches it, after the events before it have been
    verified and reported, event.get raises AttributeError and main ends
    with a traceback and status 1, without a verdict. *)
Theorem non_object_event_raises (a : args) (ds : list dict) (x : value)
        (rest : list value) (pem : option pystr) :
  load_events a = ([], inr (map VDict ds ++ x :: rest)) ->
  load_key a = inr pem ->
  all_required ds ->
  (forall d, x <> VDict d) ->
  verify_chain_any (map VDict ds ++ x :: rest) pem
  = (chain_report pem 0 ds VNone, inl AttributeError)
  /\ main a = (map Chain (chain_report pem 0 ds VNone), Traceback AttributeError)
  /\ exit_status (snd (main a)) = 1.
Proof.
  intros EL EK HA HX.
  assert (EV : verify_chain_any (map VDict ds ++ x :: rest) pem
               = (chain_report pem 0 ds VNone, inl AttributeError)).
  { unfold verify_chain_any.
    destruct (map VDict ds ++ x :: rest) eqn:E;
      [ destruct ds; discriminate E | rewrite <- E ].
    apply loop_any_non_dict; assumption. }
  assert (EM : main a = (map Chain (chain_report pem 0 ds VNone), Traceback AttributeError)).
  { unfold main. rewrite EL, EK, EV. reflexivity. }
  split; [ exact EV | ]. split; [ exact EM | rewrite EM; reflexivity ].
Qed.

(** *** An empty key file *)

Lemma check_event_same_key (pk pk' : option pystr) (i : nat) (e : dict)
      (valid : bool) (prev : value) :
  signature_fails pk e = false -> signature_fails pk' e = false ->
  check_event pk i e valid prev = check_event pk' i e valid prev.
Proof.
  intros He He'. destruct (has_required e) eqn:HR.
  - rewrite !check_event_report by exact HR.
    unfold event_report, event_passes.
    rewrite (signature_report_passes pk e He), (signature_report_passes pk' e He').
    rewrite He, He'. reflexivity.
  - destruct (first_missing_exists e HR) as [ k Hk ].
    rewrite !(check_event_missing _ i e valid prev k Hk). reflexivity.
Qed.

Lemma loop_any_no_key (pk : option pystr) (events : list value) :
  pem_truthy pk = false ->
  forall i valid prev,
    loop_any pk i events valid prev = loop_any None i events valid prev.
Proof.
  intros Hpk. induction events as [ | x events IH ]; intros i valid prev.
  - reflexivity.
  - destruct x; try reflexivity. cbn [loop_any].
    rewrite (check_event_same_key pk None i d valid prev)
      by (unfold signature_fails, signature_checked; rewrite ?Hpk; reflexivity).
    destruct (check_event None i d valid prev) as [ out [ [ k ] | st ] ];
      [ reflexivity | ].
    rewrite IH. reflexivity.
Qed.

(** X17: a key file that is empty switches signature verification off
    without notice: main behaves exactly as if --public-key had not been
    given, whatever signatures the events carry. *)
Theorem empty_key_file_disables_signatures (a : args) :
  given (args_public_key a) = true ->
  read_text_file (text_of (args_public_key a)) = Some [] ->
  main a = main (without_key a).
Proof.
  intros HG HR. unfold main.
  assert (EL : load_events (without_key a) = load_events a) by reflexivity.
  rewrite EL. destruct (load_events a) as [ out [ o | events ] ]; [ reflexivity | ].
  unfold load_key. rewrite HG, HR.
  cbv beta iota delta [without_key args_public_key given].
  assert (EV : verify_chain_any events (@Some pystr []) = verify_chain_any events None).
  { unfold verify_chain_any. destruct events; [ reflexivity | ].
    apply loop_any_no_key. reflexivity. }
  rewrite EV. reflexivity.
Qed.

End DriverProperties.

(** ** Signatures and hashes that are not strings *)

(** X18: with the cryptography package available, a checked signature
    that is not a string, or a stored hash that is not a string, cannot
    make the verifier fail with an exception: the error is caught,
    "Signature verification failed" is printed and the event is reported
    with a "Signature invalid" finding. *)
Theorem non_string_signature_is_invalid (pk : option pystr) (e : dict) :
  HAS_CRYPTO = true ->
  signature_checked pk e = true ->
  (forall s, get e "signature" <> VStr s) \/ (forall s, get e "hash" <> VStr s) ->
  verify_signature (pem_text pk) (get e "signature") (get e "hash") = ([SigFailed], false)
  /\ signature_fails pk e = true
  /\ signature_report pk e = [SigFailed; FailSignature (get e "id")].
Proof.
  intros HC HS HN.
  assert (EV : verify_signature (pem_text pk) (get e "signature") (get e "hash")
               = ([SigFailed], false)).
  { unfold verify_signature. rewrite HC. cbn [negb].
    assert (ET : try_verify (pem_text pk) (get e "signature") (get e "hash") = None).
    { unfold try_verify, option_bind, decode_signature.
      destruct (utf8_encode (pem_text pk)); [ | reflexivity ].
      destruct (load_pem_public_key b); [ | reflexivity ].
      destruct HN as [ HN | HN ].
      - destruct (get e "signature"); try reflexivity. exfalso. apply (HN s). reflexivity.
      - destruct (match on_str b64decode (get e "signature") with
                  | Some sg => Some sg
                  | None => on_str fromhex (get e "signature")
                  end); [ | reflexivity ].
        destruct (get e "hash"); try reflexivity. exfalso. apply (HN s). reflexivity. }
    rewrite ET. reflexivity. }
  split; [ exact EV | ]. unfold signature_fails, signature_report.
  rewrite HS, EV. split; reflexivity.
Qed.

End Coverage.

(** * Examples, witnesses and counterexamples *)

(** ** SHA-256 test vectors (FIPS 180-4) *)

Example sha256_constants :
  List.length Sha256.K = 64%nat
  /\ firstn 2 Sha256.K = [1116352408; 1899447441]
  /\ nth 63 Sha256.K 0 = 3329325298
  /\ nth 0 Sha256.H0 0 = 1779033703
  /\ nth 7 Sha256.H0 0 = 1541459225.
Proof. vm_compute. repeat split. Qed.

Example sha256_abc :
  Sha256.hexdigest "abc"
  = "ba7816bf8f01cfea414140de5dae2223b00361a396177a9cb410ff61f20015ad"%string.
Proof. vm_compute. reflexivity. Qed.

Example sha256_empty :
  Sha256.hexdigest EmptyString
  = "e3b0c44298fc1c149afbf4c8996fb92427ae41e4649b934ca495991b7852b855"%string.
Proof. vm_compute. reflexivity. Qed.

Example sha256_two_blocks :
  Sha256.hexdigest "abcdbcdecdefdefgefghfghighijhijkijkljklmklmnlmnomnopnopq"
  = "248d6a61d20638b8e5c026930c3e6039a33ce45964ff2167f6ecedd419db06c1"%string.
Proof. vm_compute. reflexivity. Qed.

(** ** The sample chain *)

Example canonical_json_event1 :
  @canonical_json no_float (str "logout")
     (VDict (ev [("user", str "bob"); ("n", VInt 1)]%string))
     (str h0) (str "2024-01-01T00:05:00Z")
  = ("{" ++ dquote ++ "eventType" ++ dquote ++ ":" ++ dquote ++ "logout" ++ dquote
     ++ "," ++ dquote ++ "payload" ++ dquote ++ ":{"
     ++ dquote ++ "n" ++ dquote ++ ":1,"
     ++ dquote ++ "user" ++ dquote ++ ":" ++ dquote ++ "bob" ++ dquote ++ "},"
     ++ dquote ++ "prevHash" ++ dquote ++ ":" ++ dquote ++ h0 ++ dquote
     ++ "," ++ dquote ++ "ts" ++ dquote ++ ":" ++ dquote ++ "2024-01-01T00:05:00Z"
     ++ dquote ++ "}")%string.
Proof. vm_compute. reflexivity. Qed.

Example sample_digests :
  digest event0 = h0 /\ digest event1 = h1 /\ digest event2 = h2 /\ digest event3 = h3.
Proof. vm_compute. repeat split. Qed.

Example sample_chain_run :
  @verify_chain no_float (toy_runtime true) [event0; event1; event2; event3] sample_key
  = ([ Verifying (str "a"); Verifying (str "b"); Verifying (str "c");
       FailChain (str "c"); ExpectedPrev (str h1); ActualPrev (str "deadbeef");
       Verifying (str "d") ],
     inr false).
Proof. vm_compute. reflexivity. Qed.

(** ** Witnesses: the hypotheses of the theorems hold on the samples *)

Lemma valid_chain_verifies_witness :
  snd (@verify_chain no_float (toy_runtime true) [event0; event1] sample_key) = inr true
  /\ findings (fst (@verify_chain no_float (toy_runtime true) [event0; event1] sample_key))
     = [].
Proof.
  apply (@valid_chain_verifies no_float (toy_runtime true) sample_key [event0; event1]).
  - constructor; [ | constructor; [ | constructor ] ].
    + exists (str "login"), (VDict []), (str "2024-01-01T00:00:00Z").
      repeat split; vm_compute; reflexivity.
    + exists (str "logout"), (VDict (ev [("user", str "bob"); ("n", VInt 1)]%string)),
        (str "2024-01-01T00:05:00Z").
      repeat split; vm_compute; reflexivity.
  - simpl. split; [ reflexivity | exact I ].
  - constructor; [ | constructor; [ | constructor ] ].
    + intros H. vm_compute in H. discriminate H.
    + intros _.
      exists [107], [107], (107 :: map Z.of_N (py h1)), (map Z.of_N (py h1)).
      repeat split; vm_compute; reflexivity.
Defined.

Lemma chain_break_does_not_cascade_witness :
  @verify_chain no_float (toy_runtime true) [event0; event1; event2; event3] sample_key
  = (fst (@verify_chain no_float (toy_runtime true) [event0; event1] sample_key)
       ++ @event_report no_float (toy_runtime true) sample_key 2 event2 (str h1)
       ++ @chain_report no_float (toy_runtime true) sample_key 1 [event3] (str h2),
     inr false)
  /\ filter is_chain_break
       (fst (@verify_chain no_float (toy_runtime true)
               [event0; event1; event2; event3] sample_key))
     = [FailChain (str "c")]
  /\ filter is_chain_break
       (@event_report no_float (toy_runtime true) sample_key 2 event2 (str h1))
     = [FailChain (str "c")]
  /\ filter is_chain_break
       (@chain_report no_float (toy_runtime true) sample_key 1 [event3] (str h2))
     = [].
Proof.
  pose proof (@chain_break_does_not_cascade no_float (toy_runtime true) sample_key
                [event0] event1 event2 [event3]) as H.
  assert (HA : all_required ([event0] ++ event1 :: event2 :: [event3])).
  { repeat constructor. }
  specialize (H HA eq_refl eq_refl eq_refl).
  destruct H as (_ & H1 & H0 & _ & _ & H2 & H3).
  split; [ exact H1 | split; [ exact H0 | split; [ exact H2 | exact H3 ] ] ].
Defined.

Lemma canonicalization_determinism_witness :
  normalize payload_a = normalize payload_b
  /\ @compute_hash no_float (str "login") payload_a VNone (str "t")
     = @compute_hash no_float (str "login") payload_b VNone (str "t").
Proof.
  assert (WF : wf_value payload_a).
  { unfold payload_a.
    repeat first [ apply wf_none | apply wf_bool | apply wf_int | apply wf_str
                 | apply wf_list | apply wf_dict
                 | apply Forall_nil | apply Forall_cons
                 | apply NoDup_nil | apply NoDup_cons
                 | (vm_compute; intuition discriminate) ]. }
  assert (R : same_modulo_key_order payload_a payload_b).
  { unfold payload_a, payload_b. cbn [ev map fst snd].
    eapply smko_dict; [ apply perm_swap | ].
    constructor; [ split; [ reflexivity | ] | ].
    - constructor. constructor; [ | constructor; [ constructor | constructor ] ].
      eapply smko_dict; [ apply perm_swap | ].
      repeat constructor.
    - repeat constructor. }
  destruct (@canonicalization_determinism no_float payload_a payload_b WF R)
    as (H1 & H2 & _).
  split; [ exact H1 | apply H2 ].
Defined.

Lemma missing_field_aborts_run_witness :
  exists k,
    first_missing event_no_ts = Some k /\ In k required_fields
    /\ @verify_chain no_float (toy_runtime true) ([event0] ++ event_no_ts :: [event1]) None
       = (@chain_report no_float (toy_runtime true) None 0 [event0] VNone
            ++ [Verifying (get event_no_ts "id")],
          inl (KeyError (py k))).
Proof.
  apply (@missing_field_aborts_run no_float (toy_runtime true) None
           [event0] event_no_ts [event1]).
  - repeat constructor.
  - reflexivity.
Defined.

Lemma no_short_circuit_witness :
  exists out,
    @verify_chain no_float (toy_runtime true) [event0; event_bad_hash; event2] sample_key
    = (out,
       inr (match @spec_verifier no_float (toy_runtime true) sample_key 0
                    [event0; event_bad_hash; event2] VNone with
            | [] => true
            | _ => false
            end))
    /\ filter is_verifying out
       = map (fun e => Verifying (get e "id")) [event0; event_bad_hash; event2]
    /\ findings out
       = map (finding_line [event0; event_bad_hash; event2])
             (@spec_verifier no_float (toy_runtime true) sample_key 0
                [event0; event_bad_hash; event2] VNone).
Proof.
  apply (@no_short_circuit no_float (toy_runtime true) sample_key
           [event0; event_bad_hash; event2]).
  repeat constructor.
Defined.

Lemma skipped_signature_checks_witness :
  Forall (fun e => @signature_checked no_float None e = false) [event0; event1]
  /\ filter (fun l => is_signature_invalid l || is_sig_failed l)
            (fst (@verify_chain no_float (toy_runtime true) [event0; event1] None)) = []
  /\ forall pk',
      Forall (fun e => @signature_fails no_float (toy_runtime true) pk' e = false)
             [event0; event1] ->
      @verify_chain no_float (toy_runtime true) [event0; event1] None
      = @verify_chain no_float (toy_runtime true) [event0; event1] pk'.
Proof.
  apply (@skipped_signature_checks_are_silent no_float (toy_runtime true) None
           [event0; event1]).
  left. reflexivity.
Defined.

Lemma absent_prev_hash_is_null_witness :
  digest (ev [("eventType", str "login"); ("payload", VDict [])]%string
            ++ (py "prevHash", VNone)
            :: ev [("ts", str "t"); ("hash", str h0)]%string)
  = digest (ev [("eventType", str "login"); ("payload", VDict [])]%string
              ++ ev [("ts", str "t"); ("hash", str h0)]%string).
Proof.
  pose proof (@absent_prev_hash_is_null no_float (toy_runtime true)
                (ev [("eventType", str "login"); ("payload", VDict [])]%string)
                (ev [("ts", str "t"); ("hash", str h0)]%string) eq_refl) as H.
  cbv zeta in H. destruct H as (_ & _ & _ & H & _). exact H.
Defined.

(** ** Counterexamples to the claims as the specification states them *)

(** C4 as stated fails: the second event lacks ts; no finding is printed
    for it, the third event is never visited, and the run raises
    KeyError instead of returning. *)
Lemma missing_field_counterexample :
  @verify_chain no_float (toy_runtime true) [event0; event_no_ts; event1] None
  = ([Verifying (str "a"); Verifying (str "x")], inl (KeyError (py "ts"))).
Proof. vm_compute. reflexivity. Qed.

(** C5 as stated fails: the signed chain verified without a key gives the
    same output and verdict as verified with the key that validates its
    signature; nothing tells the two runs apart. *)
Lemma missing_key_counterexample :
  truthy (get event1 "signature") = true
  /\ @signature_checked no_float sample_key event1 = true
  /\ @signature_fails no_float (toy_runtime true) sample_key event1 = false
  /\ @verify_chain no_float (toy_runtime true) [event0; event1] None
     = ([Verifying (str "a"); Verifying (str "b")], inr true)
  /\ @verify_chain no_float (toy_runtime true) [event0; event1] None
     = @verify_chain no_float (toy_runtime true) [event0; event1] sample_key.
Proof. vm_compute. repeat split. Qed.

(** C6 as stated fails: the empty sequence is reported as verified. *)
Lemma empty_chain_counterexample :
  @verify_chain no_float (toy_runtime true) [] None = ([NoEvents], inr true).
Proof. reflexivity. Qed.

(** C7 as stated fails: the first event lacks ts, so the run stops there
    and the hash mismatch of the second event is never reported. *)
Lemma short_circuit_counterexample :
  hash_fails event_bad_hash = true
  /\ @verify_chain no_float (toy_runtime true) [event_no_ts; event_bad_hash] None
     = ([Verifying (str "x")], inl (KeyError (py "ts"))).
Proof. vm_compute. repeat split. Qed.

(** C9 as stated fails: without the cryptography package a signature
    that does not validate is accepted. *)
Lemma mock_pass_counterexample :
  @HAS_CRYPTO (toy_runtime false) = false
  /\ @verify_signature no_float (toy_runtime false) (py "k") (str "zz") (str h0)
     = ([], true)
  /\ ~ @signature_validates no_float (toy_runtime false) (py "k") (str "zz") (str h0).
Proof.
  split; [ reflexivity | ]. split; [ reflexivity | ].
  intros (pem & key & sg & data & H1 & H2 & H3 & H4 & H5).
  vm_compute in H1. injection H1 as <-.
  vm_compute in H2. injection H2 as <-.
  vm_compute in H3. injection H3 as <-.
  vm_compute in H4. injection H4 as <-.
  vm_compute in H5. discriminate H5.
Qed.

(** ** The driver on the samples *)

Example main_sample_file :
  @main no_float (toy_runtime true) toy_world (file_args "chain.json" "key.pem")
  = ([Chain (Verifying (str "a")); Chain (Verifying (str "b")); Success], Exit 0).
Proof. vm_compute. reflexivity. Qed.

Example main_sample_bucket :
  @main no_float (toy_runtime true) toy_world (bucket_args "newest-first")
  = ([Chain (Verifying (str "a")); Chain (Verifying (str "b")); Success], Exit 0).
Proof. vm_compute. reflexivity. Qed.

(** ** Witnesses of the further properties *)

Lemma sample_payload_a_wf : wf_value payload_a.
Proof.
  unfold payload_a.
  repeat first [ apply wf_none | apply wf_bool | apply wf_int | apply wf_str
               | apply wf_list | apply wf_dict
               | apply Forall_nil | apply Forall_cons
               | apply NoDup_nil | apply NoDup_cons
               | (vm_compute; intuition discriminate) ].
Qed.

Lemma sample_payload_b_wf : wf_value payload_b.
Proof.
  unfold payload_b.
  repeat first [ apply wf_none | apply wf_bool | apply wf_int | apply wf_str
               | apply wf_list | apply wf_dict
               | apply Forall_nil | apply Forall_cons
               | apply NoDup_nil | apply NoDup_cons
               | (vm_compute; intuition discriminate) ].
Qed.

Lemma sample_payloads_related : same_modulo_key_order payload_a payload_b.
Proof.
  unfold payload_a, payload_b. cbn [ev map fst snd].
  eapply smko_dict; [ apply perm_swap | ].
  constructor; [ split; [ reflexivity | ] | ].
  - constructor. constructor; [ | constructor; [ constructor | constructor ] ].
    eapply smko_dict; [ apply perm_swap | ].
    repeat constructor.
  - repeat constructor.
Qed.

Lemma sample_scalar_wf (s : string) : wf_value (str s).
Proof. apply wf_str. Qed.

Lemma true_verdict_sound_witness :
  Forall hash_invariant [event0; event1]
  /\ link_invariant [event0; event1]
  /\ Forall (fun e => @signature_fails no_float (toy_runtime true) sample_key e = false)
            [event0; event1]
  /\ (@HAS_CRYPTO (toy_runtime true) = true ->
      Forall (@signature_invariant no_float (toy_runtime true) sample_key) [event0; event1]).
Proof.
  apply (@true_verdict_sound no_float (toy_runtime true) sample_key [event0; event1]).
  vm_compute. reflexivity.
Defined.

Lemma verdict_of_joined_chains_witness :
  exists b1 b2,
    snd (@verify_chain no_float (toy_runtime true) ([event0] ++ [event1]) sample_key)
    = inr b1
    /\ snd (@verify_chain no_float (toy_runtime true) (event2 :: [event3]) sample_key)
       = inr b2
    /\ snd (@verify_chain no_float (toy_runtime true)
              ([event0] ++ event1 :: event2 :: [event3]) sample_key)
       = inr (b1 && py_eq (get event2 "prevHash") (get event1 "hash") && b2).
Proof.
  apply (@verdict_of_joined_chains no_float (toy_runtime true) sample_key
           [event0] event1 event2 [event3]).
  repeat constructor.
Defined.


Lemma unread_fields_are_ignored_witness :
  @verify_chain no_float (toy_runtime true)
     (map (fun e => dict_set e (py "actor") (str "eve")) [event0; event1; event2])
     sample_key
  = @verify_chain no_float (toy_runtime true) [event0; event1; event2] sample_key.
Proof.
  assert (HN : ~ In (py "actor") (map py read_fields))
    by (vm_compute; intuition discriminate).
  exact (proj1 (@unread_fields_are_ignored no_float (toy_runtime true) sample_key
                  [event0; event1; event2] (py "actor") (str "eve") HN)).
Defined.

Lemma mock_signatures_always_pass_witness :
  Forall (fun e => @signature_fails no_float (toy_runtime false) (Some (py "other")) e
                   = false) [event0; event1]
  /\ @verify_chain no_float (toy_runtime false) [event0; event1] (Some (py "other"))
     = @verify_chain no_float (toy_runtime false) [event0; event1] None.
Proof.
  apply (@mock_signatures_always_pass no_float (toy_runtime false) (Some (py "other"))
           [event0; event1]).
  reflexivity.
Defined.

Lemma normalize_is_projection_witness :
  canonical (normalize payload_a)
  /\ normalize (normalize payload_a) = normalize payload_a
  /\ (normalize payload_a = payload_a <-> canonical payload_a).
Proof.
  apply (@normalize_is_projection no_float payload_a). exact sample_payload_a_wf.
Defined.

Lemma normalize_decides_key_order_witness :
  normalize payload_a = normalize payload_b <-> same_modulo_key_order payload_a payload_b.
Proof.
  apply (@normalize_decides_key_order no_float payload_a payload_b).
  - exact sample_payload_a_wf.
  - exact sample_payload_b_wf.
Defined.

Lemma normalize_is_redundant_witness :
  @canonical_json no_float (str "login") payload_a VNone (str "t")
  = dumps (VDict [ (py "eventType", str "login"); (py "payload", payload_a);
                   (py "prevHash", VNone); (py "ts", str "t") ])
  /\ @compute_hash no_float (str "login") payload_a VNone (str "t")
     = Sha256.hexdigest
         (dumps (VDict [ (py "eventType", str "login"); (py "payload", payload_a);
                         (py "prevHash", VNone); (py "ts", str "t") ])).
Proof.
  apply (@normalize_is_redundant no_float (str "login") payload_a VNone (str "t")).
  exact sample_payload_a_wf.
Defined.

Lemma digest_ignores_key_order_witness :
  @canonical_json no_float payload_a payload_a payload_a payload_a
  = @canonical_json no_float payload_b payload_b payload_b payload_b
  /\ @compute_hash no_float payload_a payload_a payload_a payload_a
     = @compute_hash no_float payload_b payload_b payload_b payload_b.
Proof.
  apply (@digest_ignores_key_order no_float);
    first [ exact sample_payload_a_wf | exact sample_payload_b_wf
          | exact sample_payloads_related ].
Defined.

Lemma canonical_json_is_ascii_witness :
  (forall v : @value no_float, printable (dumps v) = true)
  /\ printable (@canonical_json no_float (str "login") payload_a VNone (str "t")) = true
  /\ utf8_encode (py (@canonical_json no_float (str "login") payload_a VNone (str "t")))
     = Some (Sha256.bytes_of_string
               (@canonical_json no_float (str "login") payload_a VNone (str "t"))).
Proof.
  apply (@canonical_json_is_ascii no_float (str "login") payload_a VNone (str "t")).
  intros f. destruct f.
Defined.


Lemma s3_listing_order_witness :
  exists sorted ks',
    @sort_by_ts no_float toy_world [VDict event1; VDict event0] = Some sorted
    /\ @sort_by_ts no_float toy_world [VDict event0; VDict event1] = Some sorted
    /\ Permutation sorted [VDict event1; VDict event0]
    /\ all_some str_ts sorted = Some ks' /\ keys_sorted ks'.
Proof.
  apply (@s3_listing_order_is_irrelevant no_float (toy_runtime true) toy_world
           [VDict event1; VDict event0] [VDict event0; VDict event1]
           [py "2024-01-01T00:05:00Z"; py "2024-01-01T00:00:00Z"]).
  - apply perm_swap.
  - vm_compute. reflexivity.
  - repeat first [ apply NoDup_nil | apply NoDup_cons
                 | (vm_compute; intuition discriminate) ].
Defined.

Lemma s3_event_without_ts_witness :
  @main no_float (toy_runtime true) toy_world (bucket_args "broken")
  = ([ErrorFetching], Exit 1).
Proof.
  apply (@s3_event_without_ts_stops_main no_float (toy_runtime true) toy_world
           (bucket_args "broken") [VDict event0; VDict event_no_ts] (VDict event_no_ts)).
  - reflexivity.
  - reflexivity.
  - reflexivity.
  - vm_compute. reflexivity.
  - right. left. reflexivity.
  - intros d H. injection H as <-. vm_compute. reflexivity.
Defined.

Lemma non_object_event_witness :
  @verify_chain_any no_float (toy_runtime true)
     (map VDict [event0] ++ VInt 5 :: [VDict event1]) sample_key
  = (@chain_report no_float (toy_runtime true) sample_key 0 [event0] VNone,
     inl AttributeError)
  /\ @main no_float (toy_runtime true) toy_world (file_args "mixed.json" "key.pem")
     = (map Chain (@chain_report no_float (toy_runtime true) sample_key 0 [event0] VNone),
        Traceback AttributeError)
  /\ exit_status (snd (@main no_float (toy_runtime true) toy_world
                         (file_args "mixed.json" "key.pem"))) = 1.
Proof.
  apply (@non_object_event_raises no_float (toy_runtime true) toy_world
           (file_args "mixed.json" "key.pem") [event0] (VInt 5) [VDict event1] sample_key).
  - vm_compute. reflexivity.
  - vm_compute. reflexivity.
  - repeat constructor.
  - intros d H. discriminate H.
Defined.

Lemma empty_key_file_witness :
  @main no_float (toy_runtime true) empty_key_world (file_args "chain.json" "key.pem")
  = @main no_float (toy_runtime true) empty_key_world
      (without_key (file_args "chain.json" "key.pem")).
Proof.
  apply (@empty_key_file_disables_signatures no_float (toy_runtime true) empty_key_world
           (file_args "chain.json" "key.pem")).
  - reflexivity.
  - reflexivity.
Defined.

Lemma non_string_signature_witness :
  @verify_signature no_float (toy_runtime true) (pem_text sample_key)
     (get event_numeric_signature "signature") (get event_numeric_signature "hash")
  = ([SigFailed], false)
  /\ @signature_fails no_float (toy_runtime true) sample_key event_numeric_signature = true
  /\ @signature_report no_float (toy_runtime true) sample_key event_numeric_signature
     = [SigFailed; FailSignature (get event_numeric_signature "id")].
Proof.
  apply (@non_string_signature_is_invalid no_float (toy_runtime true) sample_key
           event_numeric_signature).
  - reflexivity.
  - vm_compute. reflexivity.
  - left. intros s H. vm_compute in H. discriminate H.
Defined.
